(** * CA-Tut: centrality of propositions in AIF argument graphs

    A shallow embedding of the executable cells of [Exercises_Tutorial.ipynb]
    (reference-graph builder, centrality post-processing, rank aligner,
    [fillna], graph construction from the similarity matrix) together with
    the two similarity measures the notebook leaves as exercises. *)

From Stdlib Require Import List String ZArith Bool Arith Lia Permutation Sorted.
From Stdlib Require Import Reals Lra.
Import ListNotations.

Set Implicit Arguments.

(** ** Python values and containers *)

Module Py.

(** A JSON scalar after [json.load]: node identifiers are strings in the AIF
    files, the notebook's own initial [nodeID = 0] is an int.  Python's [==]
    never identifies an int with a string. *)
Inductive value : Type :=
| PInt (z : Z)
| PStr (s : string).

Definition value_eqb (a b : value) : bool :=
  match a, b with
  | PInt x, PInt y => Z.eqb x y
  | PStr s, PStr t => String.eqb s t
  | _, _ => false
  end.

(** The exceptions the modelled cells can meet. *)
Inductive exn : Type :=
| KeyError
| ValueError
| IndexError
| PowerIterationFailedConvergence
| NetworkXPointlessConcept
| NetworkXError.

Inductive outcome (A : Type) : Type :=
| Returned (a : A)
| Raised (e : exn).

Arguments Returned {A} a.
Arguments Raised {A} e.

(** A [dict] keeps its keys in insertion order; assigning to a key that is
    present replaces the value in place. *)
Definition dict (V : Type) : Type := list (value * V).

Definition keys {V : Type} (d : dict V) : list value := map fst d.

Fixpoint dict_set {V : Type} (k : value) (v : V) (d : dict V) : dict V :=
  match d with
  | [] => [(k, v)]
  | (k', v') :: r =>
      if value_eqb k k' then (k', v) :: r else (k', v') :: dict_set k v r
  end.

(** [del d[k]]: [None] stands for the [KeyError] of a missing key. *)
Fixpoint dict_del {V : Type} (k : value) (d : dict V) : option (dict V) :=
  match d with
  | [] => None
  | (k', v') :: r =>
      if value_eqb k k' then Some r
      else match dict_del k r with
           | Some r' => Some ((k', v') :: r')
           | None => None
           end
  end.

(** [l.index(x)]: position of the first element equal to [x]; [None] stands
    for the [ValueError] of an absent element. *)
Fixpoint list_index (x : value) (l : list value) : option nat :=
  match l with
  | [] => None
  | y :: r =>
      if value_eqb y x then Some 0%nat
      else match list_index x r with
           | Some k => Some (S k)
           | None => None
           end
  end.

Definition mem (x : value) (l : list value) : bool :=
  existsb (value_eqb x) l.

(** [s.endswith(suffix)] *)
Definition endswith (s suffix : string) : bool :=
  let n := String.length s in
  let m := String.length suffix in
  (m <=? n)%nat && String.eqb (substring (n - m) m s) suffix.

(** [sorted(d.items(), key=operator.itemgetter(1), reverse=True)]: a stable
    sort by descending score, items of equal score staying in the order they
    had; [ltb a b] is the test [a < b] on scores. *)
Section Sorted.
Variables K V : Type.
Variable ltb : V -> V -> bool.

Fixpoint insert_desc (x : K * V) (l : list (K * V)) : list (K * V) :=
  match l with
  | [] => [x]
  | y :: r => if ltb (snd x) (snd y) then y :: insert_desc x r else x :: y :: r
  end.

Definition sorted_desc (items : list (K * V)) : list (K * V) :=
  fold_right insert_desc [] items.

End Sorted.

End Py.

(** ** Reading the AIF nodesets *)

Module Aif.
Import Py.
Open Scope string_scope.

Record node : Type := { type : string; nodeID : value; text : string }.
Record edge : Type := { fromID : value; toID : value }.
Record json : Type := { nodes : list node; edges : list edge }.

(** One entry of [os.listdir(directory)] with the document [json.load]
    reads from it. *)
Record file : Type := { filename : string; json_data : json }.

(** First cell: [I_nodes[nodeID] = text] for every node of type "I" of every
    ".json" file; the keys become the index of [df]. *)
Definition I_nodes_file (I_nodes : dict string) (f : file) : dict string :=
  if endswith (filename f) ".json" then
    fold_left
      (fun acc n =>
         if String.eqb (type n) "I" then dict_set (nodeID n) (text n) acc
         else acc)
      (nodes (json_data f)) I_nodes
  else I_nodes.

Definition I_nodes (directory : list file) : dict string :=
  fold_left I_nodes_file directory [].

Definition df_index (directory : list file) : list value :=
  keys (I_nodes directory).

(** The inner [for j] loop of the relation cell.  [edges] is the list created
    for the current node; every edge whose [toID] equals the current value of
    the variable [nodeID] appends its [fromID] and (re)binds
    [interesting_nodes[nodeID]] to that list. *)
Definition scan_edges (nodeID : value) (es : list edge)
  (st : list value * dict (list value)) : list value * dict (list value) :=
  fold_left
    (fun st e =>
       if value_eqb (toID e) nodeID then
         let edges' := (fst st ++ [fromID e])%list in
         (edges', dict_set nodeID edges' (snd st))
       else st)
    es st.

(** One turn of the [for i] loop.  The variable [nodeID] is only reassigned
    on a "CA" or "RA" node and otherwise keeps the value it had, also across
    files; the edge loop runs for every node. *)
Definition visit_node (data : json)
  (st : dict (list value) * value) (n : node) : dict (list value) * value :=
  let nodeID' :=
    if String.eqb (type n) "CA" || String.eqb (type n) "RA"
    then nodeID n else snd st in
  (snd (scan_edges nodeID' (edges data) ([], fst st)), nodeID').

Definition visit_file (st : dict (list value) * value) (f : file)
  : dict (list value) * value :=
  if endswith (filename f) ".json" then
    fold_left (visit_node (json_data f)) (nodes (json_data f)) st
  else st.

(** [interesting_nodes = {}; nodeID = 0; for file in os.listdir(directory)] *)
Definition interesting_nodes (directory : list file) : dict (list value) :=
  fst (fold_left visit_file directory ([], PInt 0)).

(** [feeds directory s k]: some ".json" file of the directory has an edge
    from [s] to [k]. *)
Definition feeds (directory : list file) (s k : value) : Prop :=
  exists f e,
    In f directory /\ endswith (filename f) ".json" = true /\
    In e (edges (json_data f)) /\ fromID e = s /\ toID e = k.

(** What every state of the relation cell satisfies: no key twice, every
    recorded source list is non-empty and made of sources of edges into its
    key. *)
Definition recorded_ok (directory : list file) (d : dict (list value)) : Prop :=
  NoDup (keys d) /\
  forall k srcs, In (k, srcs) d ->
    srcs <> [] /\ forall s, In s srcs -> feeds directory s k.

End Aif.

(** ** The part of networkx the notebook builds graphs with *)

Module Nx.
Import Py.

(** [nx.Graph()]: nodes in insertion order, each undirected edge stored
    once. *)
Record Graph : Type := { g_nodes : list value; g_edges : list (value * value) }.

Definition empty_graph : Graph := {| g_nodes := []; g_edges := [] |}.

Definition add_node (n : value) (G : Graph) : Graph :=
  if mem n (g_nodes G) then G
  else {| g_nodes := g_nodes G ++ [n]; g_edges := g_edges G |}.

Definition add_nodes_from (ns : list value) (G : Graph) : Graph :=
  fold_left (fun G n => add_node n G) ns G.

Definition joins (u v : value) (e : value * value) : bool :=
  (value_eqb (fst e) u && value_eqb (snd e) v)
  || (value_eqb (fst e) v && value_eqb (snd e) u).

(** [G.has_edge(u, v)], the same as [v in G[u]]: adjacency is undirected. *)
Definition has_edge (G : Graph) (u v : value) : bool :=
  existsb (joins u v) (g_edges G).

Definition add_edge (u v : value) (G : Graph) : Graph :=
  let G1 := add_node v (add_node u G) in
  if has_edge G1 u v then G1
  else {| g_nodes := g_nodes G1; g_edges := g_edges G1 ++ [(u, v)] |}.

Definition add_edges_from (es : list (value * value)) (G : Graph) : Graph :=
  fold_left (fun G e => add_edge (fst e) (snd e) G) es G.

End Nx.

(** ** Ground truth: centrality on the graph of RA and CA nodes *)

Module Reference.
Import Py Nx.

(** [for key, value in interesting_nodes.items()]: the key and all its
    sources go to [list_of_nodes], one pair [(value[i], key)] per source goes
    to [list_of_edges]. *)
Definition collect (acc : list value * list (value * value))
  (item : value * list value) : list value * list (value * value) :=
  (fst acc ++ [fst item] ++ snd item,
   snd acc ++ map (fun v => (v, fst item)) (snd item)).

Definition list_of_nodes (interesting_nodes : dict (list value)) : list value :=
  fst (fold_left collect interesting_nodes ([], [])).

Definition list_of_edges (interesting_nodes : dict (list value))
  : list (value * value) :=
  snd (fold_left collect interesting_nodes ([], [])).

Definition sub_graph (interesting_nodes : dict (list value)) : Graph :=
  add_edges_from (list_of_edges interesting_nodes)
    (add_nodes_from (list_of_nodes interesting_nodes) empty_graph).

(** [for key, value in interesting_nodes.items(): del centrality[key]];
    a [KeyError] ends the loop. *)
Definition delete_relation_nodes {V : Type}
  (interesting_nodes : dict (list value)) (centrality : dict V)
  : option (dict V) :=
  fold_left
    (fun c item =>
       match c with
       | Some c' => dict_del (fst item) c'
       | None => None
       end)
    interesting_nodes (Some centrality).

Definition Rltb (a b : R) : bool := if Rlt_dec a b then true else false.

(** The centrality cell.  [nx.eigenvector_centrality] is library code; the
    cell calls it with [max_iter=500], [tol=1e-06] and does not catch what it
    raises. *)
Definition sorted_scores_onGraph
  (eigenvector_centrality : Graph -> nat -> R -> outcome (dict R))
  (interesting_nodes : dict (list value)) : outcome (list (value * R)) :=
  match eigenvector_centrality (sub_graph interesting_nodes) 500%nat
          (1 / 1000000)%R with
  | Raised e => Raised e
  | Returned centrality =>
      match delete_relation_nodes interesting_nodes centrality with
      | None => Raised KeyError
      | Some centrality' => Returned (sorted_desc Rltb centrality')
      end
  end.

(** The rank aligner, the same loop in its three cells:
    [try: append(ranking.index(row[0]))  except: append(1173)]. *)
Definition rank_of (ranking : list value) (row0 : value) : nat :=
  match list_index row0 ranking with
  | Some k => k
  | None => 1173%nat
  end.

Definition rankings (ranking index : list value) : list nat :=
  map (rank_of ranking) index.

(** [ranking = [i[0] for i in sorted_scores_onGraph]] *)
Definition centrality_rankings (sorted_scores : list (value * R))
  (index : list value) : list nat :=
  rankings (map fst sorted_scores) index.

(** [list_cw.append(sim.index[sorted_scores_Common_words[i][0]])]: the graph
    node numbers are turned back into the labels of [sim]. *)
Fixpoint labels_of (sim_index : list value) (sorted_scores : list (nat * R))
  : outcome (list value) :=
  match sorted_scores with
  | [] => Returned []
  | (node, _) :: r =>
      match nth_error sim_index node with
      | None => Raised IndexError
      | Some label =>
          match labels_of sim_index r with
          | Returned l => Returned (label :: l)
          | Raised e => Raised e
          end
      end
  end.

Definition common_words_rankings (sim_index : list value)
  (sorted_scores_Common_words : list (nat * R)) (index : list value)
  : outcome (list nat) :=
  match labels_of sim_index sorted_scores_Common_words with
  | Returned list_cw => Returned (rankings list_cw index)
  | Raised e => Raised e
  end.

End Reference.

(** ** numpy floats and the similarity frame *)

Module Pd.
Import Py.
Open Scope R_scope.

(** A float as numpy holds it: a number, an infinity, or not-a-number. *)
Inductive float : Type :=
| NaN
| Inf
| Fin (x : R).

(** [x / y] on numpy floats: [0/0] is NaN, [x/0] is infinite. *)
Definition fdiv (x y : R) : float :=
  if Req_dec_T y 0 then (if Req_dec_T x 0 then NaN else Inf)
  else Fin (x / y).

(** The frame [sim = pd.DataFrame(sim_dict)]: row labels, column labels and
    the array [sim.values]. *)
Record DataFrame : Type :=
  { index : list value; columns : list value; values : list (list float) }.

Definition fillna_cell (v : R) (c : float) : float :=
  match c with
  | NaN => Fin v
  | _ => c
  end.

(** [sim.fillna(v)]: NaN cells become [v]; pandas leaves infinities alone. *)
Definition fillna (v : R) (sim : DataFrame) : DataFrame :=
  {| index := index sim;
     columns := columns sim;
     values := map (map (fillna_cell v)) (values sim) |}.

Definition entry (A : list (list float)) (i j : nat) : option float :=
  match nth_error A i with
  | Some row => nth_error row j
  | None => None
  end.

End Pd.

(** ** TextRank: from the similarity frame to the ranked scores *)

Module TextRank.
Import Py Pd.

(** An undirected weighted graph on the nodes [0 .. w_order - 1]. *)
Record WGraph : Type :=
  { w_order : nat; w_edges : list (nat * nat * float) }.

Definition wjoins (u v : nat) (e : nat * nat * float) : bool :=
  (Nat.eqb (fst (fst e)) u && Nat.eqb (snd (fst e)) v)
  || (Nat.eqb (fst (fst e)) v && Nat.eqb (snd (fst e)) u).

(** [G[u][v]['weight']] when the edge exists. *)
Definition edge_weight (G : WGraph) (u v : nat) : option float :=
  match find (wjoins u v) (w_edges G) with
  | Some e => Some (snd e)
  | None => None
  end.

(** [G.add_edge(u, v, weight=w)]: an edge that exists gets the new weight. *)
Fixpoint set_edge (u v : nat) (w : float) (es : list (nat * nat * float))
  : list (nat * nat * float) :=
  match es with
  | [] => [(u, v, w)]
  | e :: r => if wjoins u v e then (fst e, w) :: r else e :: set_edge u v w r
  end.

(** The test behind [A.nonzero()]: everything but the number zero. *)
Definition nonzero (c : float) : bool :=
  match c with
  | Fin x => if Req_dec_T x 0 then false else true
  | _ => true
  end.

Fixpoint enum_row (u v : nat) (row : list float) : list (nat * nat * float) :=
  match row with
  | [] => []
  | x :: r => (if nonzero x then [(u, v, x)] else []) ++ enum_row u (S v) r
  end.

Fixpoint enum_rows (u : nat) (A : list (list float)) : list (nat * nat * float) :=
  match A with
  | [] => []
  | row :: r => enum_row u 0 row ++ enum_rows (S u) r
  end.

Definition is_square (A : list (list float)) : bool :=
  forallb (fun row => Nat.eqb (List.length row) (List.length A)) A.

(** networkx's [from_numpy_array], library code the notebook calls, after
    its documentation: the array must be square; node [i] stands for row and
    column [i]; every nonzero entry [A[u][v]], the diagonal included, is
    added as the edge [(u, v)] with weight [A[u][v]], in row-major order. *)
Definition from_numpy_array (A : list (list float)) : outcome WGraph :=
  if is_square A then
    Returned
      {| w_order := List.length A;
         w_edges :=
           fold_left
             (fun es t => set_edge (fst (fst t)) (snd (fst t)) (snd t) es)
             (enum_rows 0 A) [] |}
  else Raised NetworkXError.

(** [sim_matrix = sim.values; nx_graph = nx.from_numpy_array(sim_matrix)] *)
Definition nx_graph (sim : DataFrame) : outcome WGraph :=
  from_numpy_array (values sim).

(** The whole cell; [nx.pagerank] is library code and enters as [pagerank]. *)
Definition sorted_scores
  (pagerank : WGraph -> outcome (list (nat * R))) (sim : DataFrame)
  : outcome (list (nat * R)) :=
  match nx_graph sim with
  | Raised e => Raised e
  | Returned G =>
      match pagerank G with
      | Raised e => Raised e
      | Returned scores => Returned (sorted_desc Reference.Rltb scores)
      end
  end.

(** The word2vec pipeline runs [sim = sim.fillna(0)] before the same cell. *)
Definition nx_graph_word2vec (sim : DataFrame) : outcome WGraph :=
  nx_graph (fillna 0 sim).

End TextRank.

(** ** The word2vec similarity frame *)

Module Word2Vec.
Import Py Pd.

Definition vec : Type := list R.

(** The cells that compute the centroids and their pairwise similarity are
    exercises, so both enter as parameters: [centroids] holds, per text, the
    centroid or [None] when no token of the text is in the vocabulary, and
    [cos] is whatever measure is applied to two centroids that exist.  A
    missing centroid is NaN in numpy and every result computed from it is
    NaN. *)
Definition raw_similarity (cos : vec -> vec -> float)
  (ci cj : option vec) : float :=
  match ci, cj with
  | Some u, Some v => cos u v
  | _, _ => NaN
  end.

Definition sim_frame (cos : vec -> vec -> float) (ids : list value)
  (centroids : list (option vec)) : DataFrame :=
  {| index := ids;
     columns := ids;
     values :=
       map (fun ci => map (fun cj => raw_similarity cos ci cj) centroids)
         centroids |}.

(** [sim = sim.fillna(0); sim_matrix = sim.values]: the array handed to
    [nx.from_numpy_array]. *)
Definition sim_matrix (sim : DataFrame) : list (list float) :=
  values (fillna 0 sim).

End Word2Vec.

(** ** The two similarity measures *)

Module Similarity.
Import Py Pd Word2Vec.
Open Scope R_scope.

(** Modelled from the spec: the overlap measure of Mihalcea and Tarau, which
    the notebook leaves as the exercise "implement the similarity measure".
    The tokens common to both sequences are counted without duplicates. *)
Definition common (a b : list string) : list string :=
  filter (fun w => existsb (String.eqb w) b) (nodup string_dec a).

(** Modelled from the spec: the overlap similarity of the same exercise:
    the number of common tokens over [log |a| + log |b|], and 0 as soon as
    one sequence has length 0 or 1. *)
Definition overlap_similarity (a b : list string) : float :=
  if (List.length a <=? 1)%nat || (List.length b <=? 1)%nat then Fin 0
  else fdiv (INR (List.length (common a b)))
            (ln (INR (List.length a)) + ln (INR (List.length b))).

(** Modelled from the spec: the vector arithmetic the two exercises on
    centroids need (inner product, Euclidean norm, sum, scaling). *)
Fixpoint dot (u v : vec) : R :=
  match u, v with
  | x :: u', y :: v' => x * y + dot u' v'
  | _, _ => 0
  end.

Definition norm (u : vec) : R := sqrt (dot u u).

Fixpoint vadd (u v : vec) : vec :=
  match u, v with
  | x :: u', y :: v' => (x + y) :: vadd u' v'
  | _, _ => []
  end.

Definition scale (c : R) (u : vec) : vec := map (Rmult c) u.

(** Modelled from the spec: the cosine of two centroids, the exercise "the
    centroids are then compared using cosine similarity". *)
Definition cosine (u v : vec) : float :=
  fdiv (dot u v) (norm u * norm v).

Section Embedding.

(** The pretrained vectors: [lookup token] is the vector or absent. *)
Variable lookup : string -> option vec.

(** Modelled from the spec: the vectors of the tokens of a text that are in
    the vocabulary. *)
Definition resolved (a : list string) : list vec :=
  flat_map (fun t => match lookup t with Some v => [v] | None => [] end) a.

(** Modelled from the spec: the centroid of a text, the exercise "compute the
    centroids for each text": the mean of the vectors of its tokens, tokens
    without a vector skipped, undefined when none is left. *)
Definition centroid (a : list string) : option vec :=
  match resolved a with
  | [] => None
  | v :: vs => Some (scale (/ INR (S (List.length vs))) (fold_left vadd vs v))
  end.

(** Modelled from the spec: the embedding-centroid similarity as the graph
    builder receives it, that is after [fillna(0)]. *)
Definition embedding_similarity (a b : list string) : float :=
  fillna_cell 0 (raw_similarity cosine (centroid a) (centroid b)).

End Embedding.

(** The example of the notebook. *)
Definition Text1 : list string :=
  ["carson"; "want"; "a"; "flat"; "tax"]%string.
Definition Text2 : list string :=
  ["carson"; "wants"; "two"; "flat"; "taxes"]%string.

End Similarity.


(** ** Small corpora used as test inputs *)

Module Examples.
Import Py Aif Nx.
Open Scope string_scope.

(** An argument with two premises: [A] and [B] support [C] through the RA
    node [R]. *)
Definition two_premises : list file :=
  [ {| filename := "nodeset1.json";
       json_data :=
         {| nodes :=
              [ {| type := "I"; nodeID := PStr "A"; text := "carson want a flat tax" |};
                {| type := "I"; nodeID := PStr "B"; text := "carson wants two flat taxes" |};
                {| type := "I"; nodeID := PStr "C"; text := "the sky is blue" |};
                {| type := "RA"; nodeID := PStr "R"; text := "Default Inference" |} ];
            edges :=
              [ {| fromID := PStr "A"; toID := PStr "R" |};
                {| fromID := PStr "B"; toID := PStr "R" |};
                {| fromID := PStr "R"; toID := PStr "C" |} ] |} |} ].

(** An attack without a premise of its own: the CA node [R2] points at the
    RA node [R1] and nothing points at [R2]. *)
Definition undercut_json : json :=
  {| nodes :=
       [ {| type := "I"; nodeID := PStr "P"; text := "premise" |};
         {| type := "I"; nodeID := PStr "Q"; text := "conclusion" |};
         {| type := "RA"; nodeID := PStr "R1"; text := "Default Inference" |};
         {| type := "CA"; nodeID := PStr "R2"; text := "Default Conflict" |} ];
     edges :=
       [ {| fromID := PStr "P"; toID := PStr "R1" |};
         {| fromID := PStr "R1"; toID := PStr "Q" |};
         {| fromID := PStr "R2"; toID := PStr "R1" |} ] |}.

Definition undercut : list file :=
  [ {| filename := "nodeset2.json"; json_data := undercut_json |} ].

(** Two nodesets: the RA node [R] of the first has no incoming edge there;
    the second has an edge into [R]. *)
Definition first_json : json :=
  {| nodes :=
       [ {| type := "I"; nodeID := PStr "C"; text := "conclusion" |};
         {| type := "RA"; nodeID := PStr "R"; text := "Default Inference" |} ];
     edges := [ {| fromID := PStr "R"; toID := PStr "C" |} ] |}.

Definition second_json : json :=
  {| nodes := [ {| type := "I"; nodeID := PStr "D"; text := "another text" |} ];
     edges := [ {| fromID := PStr "D"; toID := PStr "R" |} ] |}.

Definition two_nodesets : list file :=
  [ {| filename := "nodeset3.json"; json_data := first_json |};
    {| filename := "nodeset4.json"; json_data := second_json |} ].

(** A stand-in for a run of the library that converged: one score per node
    of the graph. *)
Definition unit_scores (G : Graph) (max_iter : nat) (tol : R)
  : outcome (dict R) :=
  Returned (map (fun n => (n, 1%R)) (g_nodes G)).

(** A ranking of 1174 entries, the integers 0 to 1173. *)
Definition long_ranking : list value :=
  map (fun k => PInt (Z.of_nat k)) (seq 0 1174).

End Examples.

(** ** Fixed-point squaring, used to bound [exp] and [ln] *)

Module Bounds.

(** [sq_chain M c n]: the fixed-point number [c / M] squared [n] times, each
    square rounded down to a multiple of [1 / M]. *)
Fixpoint sq_chain (M c : Z) (n : nat) : Z :=
  match n with
  | O => c
  | S n' => sq_chain M (c * c / M) n'
  end.

End Bounds.

(** ** A small similarity frame used as test input *)

Module FrameExamples.
Import Py Pd TextRank.
Open Scope R_scope.

Definition half_frame : DataFrame :=
  {| index := [PStr "a"; PStr "b"];
     columns := [PStr "a"; PStr "b"];
     values := [[Fin 1; Fin (1 / 2)]; [Fin (1 / 2); Fin 1]] |}.

(** The graph [nx.from_numpy_array] builds from an array of two rows of
    length two. *)
Definition graph_of (A : list (list float)) : WGraph :=
  {| w_order := 2;
     w_edges :=
       fold_left
         (fun es t => set_edge (fst (fst t)) (snd (fst t)) (snd t) es)
         (enum_rows 0 A) [] |}.

End FrameExamples.

(** ** Reading off the corpus what the two reading cells keep *)

Module Corpus.
Import Py Aif.
Open Scope string_scope.

(** The entries of the directory the cells open. *)
Definition json_files (directory : list file) : list file :=
  filter (fun f => endswith (filename f) ".json") directory.

(** The test of the relation cell on a node. *)
Definition is_relation (n : node) : bool :=
  String.eqb (type n) "CA" || String.eqb (type n) "RA".

(** The [fromID]s of the edges of one document that point to [k], in the
    order of the document. *)
Definition sources (k : value) (data : json) : list value :=
  map fromID (filter (fun e => value_eqb (toID e) k) (edges data)).

(** The pairs [(nodeID, text)] of the "I" nodes, in reading order. *)
Definition I_items (directory : list file) : list (value * string) :=
  flat_map
    (fun f =>
       flat_map
         (fun n => if String.eqb (type n) "I" then [(nodeID n, text n)] else [])
         (nodes (json_data f)))
    (json_files directory).

(** [relation_id directory k]: [k] is a value the variable [nodeID] of the
    relation cell can hold, the initial 0 or the identifier of a "CA" or
    "RA" node of a ".json" file. *)
Definition relation_id (directory : list file) (k : value) : Prop :=
  k = PInt 0 \/
  exists f n,
    In f directory /\ endswith (filename f) ".json" = true /\
    In n (nodes (json_data f)) /\ is_relation n = true /\ nodeID n = k.

(** Across a whole run the variable [nodeID] and every recorded key are
    relation identifiers, and every recorded list is the complete list of
    sources of its key in one of the documents. *)
Definition run_ok (directory : list file) (st : dict (list value) * value)
  : Prop :=
  relation_id directory (snd st) /\
  forall k srcs, In (k, srcs) (fst st) ->
    relation_id directory k /\ srcs <> [] /\
    exists f, In f directory /\ endswith (filename f) ".json" = true /\
              srcs = sources k (json_data f).

(** [d[k]]: [None] stands for the [KeyError] of a missing key. *)
Fixpoint dict_get {V : Type} (k : value) (d : dict V) : option V :=
  match d with
  | [] => None
  | (k', v) :: r => if value_eqb k k' then Some v else dict_get k r
  end.

End Corpus.

(** ** Printing the five most central texts *)

Module Report.
Import Py Corpus.
Open Scope string_scope.

Definition separator : string := "----------------------------------------".

(** One turn of [for i in range(5)], up to its first [print]:
    [node_ID = sorted_scores[i][0]], [id_ = sim.index[node_ID]],
    [df.index[df.index == id_][0]] and the text of that row.  [df] is the
    frame built from [I_nodes]: its index are the keys, its column [text]
    the values. *)
Definition best_text (sorted_scores : list (nat * R))
  (sim_index : list value) (df : dict string) (i : nat) : outcome string :=
  match nth_error sorted_scores i with
  | None => Raised IndexError
  | Some (node_ID, _) =>
      match nth_error sim_index node_ID with
      | None => Raised IndexError
      | Some id_ =>
          match filter (fun label => value_eqb label id_) (keys df) with
          | [] => Raised IndexError
          | label :: _ =>
              match dict_get label df with
              | Some t => Returned t
              | None => Raised KeyError
              end
          end
      end
  end.

(** The loop over the turns [turns]: what has been printed so far and the
    exception that ended the loop, if one did. *)
Fixpoint print_loop (sorted_scores : list (nat * R))
  (sim_index : list value) (df : dict string) (turns : list nat)
  (printed : list string) : list string * option exn :=
  match turns with
  | [] => (printed, None)
  | i :: r =>
      match best_text sorted_scores sim_index df i with
      | Raised e => (printed, Some e)
      | Returned t =>
          print_loop sorted_scores sim_index df r
            (printed ++ [t; separator])%list
      end
  end.

(** The cell "get the best 5 central texts". *)
Definition print_best_5 (sorted_scores : list (nat * R))
  (sim_index : list value) (df : dict string) : list string * option exn :=
  print_loop sorted_scores sim_index df (seq 0 5) [].

End Report.

(** ** Test input for the printing cell *)

Module ReportExamples.
Import Py.
Open Scope string_scope.

Definition five_labels : list value :=
  [PStr "a"; PStr "b"; PStr "c"; PStr "d"; PStr "e"].

Definition five_rows : dict string :=
  [(PStr "a", "ta"); (PStr "b", "tb"); (PStr "c", "tc"); (PStr "d", "td");
   (PStr "e", "te")].

Definition five_scores : list (nat * R) :=
  [(4%nat, 5%R); (3%nat, 4%R); (2%nat, 3%R); (1%nat, 2%R); (0%nat, 1%R)].

End ReportExamples.

(** ** What is asked of the PageRank scores *)

Module PageRank.
Import Py Pd TextRank.
Open Scope R_scope.







End PageRank.
(** * Properties *)

(** ** Python containers *)

Section PyFacts.
Import Py.

Lemma value_eqb_eq (a b : value) : value_eqb a b = true <-> a = b.
Proof.
  destruct a as [x|s], b as [y|t]; simpl; split; intros H;
    try discriminate; try (inversion H; subst).
  - apply Z.eqb_eq in H. now subst.
  - apply Z.eqb_refl.
  - apply String.eqb_eq in H. now subst.
  - apply String.eqb_refl.
Qed.

Lemma value_eqb_refl (a : value) : value_eqb a a = true.
Proof. now apply value_eqb_eq. Qed.

Lemma value_eqb_neq (a b : value) : value_eqb a b = false <-> a <> b.
Proof.
  split; intros H.
  - intros E. apply value_eqb_eq in E. congruence.
  - destruct (value_eqb a b) eqn:E; [|reflexivity].
    apply value_eqb_eq in E. contradiction.
Qed.

Lemma mem_In (x : value) (l : list value) : mem x l = true <-> In x l.
Proof.
  unfold mem. rewrite existsb_exists. split.
  - intros (y & Hy & E). apply value_eqb_eq in E. now subst.
  - intros H. exists x. split; [assumption | apply value_eqb_refl].
Qed.

Variable V : Type.

Lemma In_dict_set (k : value) (v : V) (d : dict V) (k' : value) (v' : V) :
  In (k', v') (dict_set k v d) -> (k' = k /\ v' = v) \/ In (k', v') d.
Proof.
  induction d as [|[k0 v0] r IH]; simpl.
  - intros [E|[]]. inversion E. now left.
  - destruct (value_eqb k k0) eqn:E; simpl.
    + apply value_eqb_eq in E. subst k0.
      intros [H|H]; [inversion H; now left | right; now right].
    + intros [H|H]; [right; now left|].
      destruct (IH H) as [?|?]; [now left | right; now right].
Qed.

Lemma keys_dict_set (k : value) (v : V) (d : dict V) (k' : value) :
  In k' (keys (dict_set k v d)) <-> k' = k \/ In k' (keys d).
Proof.
  unfold keys. induction d as [|[k0 v0] r IH]; simpl.
  - intuition.
  - destruct (value_eqb k k0) eqn:E; simpl.
    + apply value_eqb_eq in E. subst k0. intuition.
    + rewrite IH. intuition.
Qed.

Lemma dict_set_bound (k : value) (v : V) (d : dict V) :
  In (k, v) (dict_set k v d).
Proof.
  induction d as [|[k0 v0] r IH]; simpl.
  - now left.
  - destruct (value_eqb k k0) eqn:E; simpl.
    + apply value_eqb_eq in E. subst k0. now left.
    + now right.
Qed.

Lemma dict_set_other (k : value) (v : V) (d : dict V) (k' : value) (v' : V) :
  k' <> k -> In (k', v') d -> In (k', v') (dict_set k v d).
Proof.
  intros Hne. induction d as [|[k0 v0] r IH]; simpl.
  - intros [].
  - destruct (value_eqb k k0) eqn:E; simpl.
    + apply value_eqb_eq in E. subst k0.
      intros [H|H]; [inversion H; subst; contradiction | now right].
    + intros [H|H]; [now left | right; now apply IH].
Qed.

Lemma NoDup_keys_dict_set (k : value) (v : V) (d : dict V) :
  NoDup (keys d) -> NoDup (keys (dict_set k v d)).
Proof.
  unfold keys. induction d as [|[k0 v0] r IH]; simpl; intros H.
  - constructor; [intros [] | constructor].
  - inversion H as [|? ? Hn Hr]; subst.
    destruct (value_eqb k k0) eqn:E; simpl.
    + constructor; assumption.
    + constructor; [|now apply IH].
      intros Hin. apply (keys_dict_set k v r k0) in Hin.
      destruct Hin as [->|Hin]; [|contradiction].
      rewrite value_eqb_refl in E. discriminate.
Qed.

(** [del d[k]] succeeds exactly on a key that is present and, on a [dict]
    (no key twice), removes that key and nothing else. *)
Lemma dict_del_present (k : value) (d : dict V) :
  In k (keys d) -> exists d', dict_del k d = Some d'.
Proof.
  unfold keys. induction d as [|[k0 v0] r IH]; simpl; intros H.
  - contradiction.
  - destruct (value_eqb k k0) eqn:E; [eauto|].
    destruct H as [H|H].
    + subst k0. rewrite value_eqb_refl in E. discriminate.
    + destruct (IH H) as (d' & ->). eauto.
Qed.

Lemma dict_del_missing (k : value) (d : dict V) :
  ~ In k (keys d) -> dict_del k d = None.
Proof.
  unfold keys. induction d as [|[k0 v0] r IH]; simpl; intros H.
  - reflexivity.
  - destruct (value_eqb k k0) eqn:E.
    + apply value_eqb_eq in E. subst k0. exfalso. apply H. now left.
    + rewrite IH; [reflexivity|]. intros Hin. apply H. now right.
Qed.

Lemma dict_del_keys (k : value) (d d' : dict V) :
  NoDup (keys d) -> dict_del k d = Some d' ->
  NoDup (keys d') /\
  forall x, In x (keys d') <-> In x (keys d) /\ x <> k.
Proof.
  unfold keys. revert d'.
  induction d as [|[k0 v0] r IH]; simpl; intros d' Hnd Hdel.
  - discriminate.
  - inversion Hnd as [|? ? Hn Hr]; subst.
    destruct (value_eqb k k0) eqn:E.
    + apply value_eqb_eq in E. subst k0. inversion Hdel; subst d'.
      split; [assumption|]. intros x. split.
      * intros Hx. split; [now right|]. intros ->. contradiction.
      * intros [[Hx|Hx] Hne]; [congruence | assumption].
    + destruct (dict_del k r) as [r'|] eqn:Er; [|discriminate].
      inversion Hdel; subst d'. simpl.
      destruct (IH r' Hr eq_refl) as (Hnd' & Hiff).
      apply value_eqb_neq in E.
      split.
      * constructor; [|assumption]. intros Hin. apply Hiff in Hin. tauto.
      * intros x. rewrite Hiff. split.
        -- intros [->|[Hx Hne]]; [split; [now left | congruence] | tauto].
        -- intros [[->|Hx] Hne]; [now left | right; tauto].
Qed.

End PyFacts.

Section IndexFacts.
Import Py.

Lemma value_eq_dec (a b : value) : {a = b} + {a <> b}.
Proof.
  destruct (value_eqb a b) eqn:E.
  - left. now apply value_eqb_eq.
  - right. now apply value_eqb_neq.
Qed.

Lemma list_index_absent (x : value) (l : list value) :
  list_index x l = None <-> ~ In x l.
Proof.
  induction l as [|y r IH]; simpl.
  - tauto.
  - destruct (value_eqb y x) eqn:E.
    + apply value_eqb_eq in E. subst y. split; [discriminate | tauto].
    + apply value_eqb_neq in E.
      destruct (list_index x r) as [k|].
      * split; [discriminate|]. intros H. exfalso. apply H. right.
        destruct (in_dec value_eq_dec x r) as [Hin|Hin]; [assumption|].
        apply IH in Hin. discriminate.
      * split; [|reflexivity]. intros _ [H|H]; [contradiction|].
        now apply IH in H.
Qed.

Lemma list_index_present (x : value) (l : list value) (k : nat) :
  list_index x l = Some k ->
  (k < List.length l)%nat /\ nth_error l k = Some x /\
  forall j, (j < k)%nat -> nth_error l j <> Some x.
Proof.
  revert k. induction l as [|y r IH]; simpl; intros k H.
  - discriminate.
  - destruct (value_eqb y x) eqn:E.
    + apply value_eqb_eq in E. subst y. inversion H; subst k. simpl.
      repeat split; [lia | intros j Hj; lia].
    + apply value_eqb_neq in E.
      destruct (list_index x r) as [k'|]; [|discriminate].
      inversion H; subst k. destruct (IH k' eq_refl) as (Hlt & Hnth & Hfirst).
      simpl. repeat split; [lia | assumption |].
      intros [|j] Hj; simpl; [congruence | apply Hfirst; lia].
Qed.

End IndexFacts.

(** ** The relation map [interesting_nodes] *)

Section AifFacts.
Import Py Aif.

Lemma scan_edges_ok (directory : list file) (f : file) (nodeID : value) :
  In f directory -> endswith (filename f) ".json" = true ->
  forall (es : list edge) (acc : list value) (d : dict (list value)),
    incl es (edges (json_data f)) ->
    (forall s, In s acc -> feeds directory s nodeID) ->
    recorded_ok directory d ->
    recorded_ok directory (snd (scan_edges nodeID es (acc, d))).
Proof.
  intros Hf Hjson. unfold scan_edges.
  induction es as [|e es IH]; simpl; intros acc d Hincl Hacc Hd.
  - assumption.
  - assert (He : In e (edges (json_data f))) by (apply Hincl; now left).
    assert (Hes : incl es (edges (json_data f)))
      by (intros x Hx; apply Hincl; now right).
    destruct (value_eqb (toID e) nodeID) eqn:E; [|now apply IH].
    apply value_eqb_eq in E.
    assert (Hacc' : forall s, In s (acc ++ [fromID e]) -> feeds directory s nodeID).
    { intros s Hs. apply in_app_or in Hs. destruct Hs as [Hs|[<-|[]]].
      - now apply Hacc.
      - exists f, e. repeat split; assumption. }
    apply IH; [assumption | assumption |].
    destruct Hd as (Hnd & Hall). split.
    + now apply NoDup_keys_dict_set.
    + intros k srcs Hin. apply In_dict_set in Hin.
      destruct Hin as [[-> ->]|Hin]; [|now apply Hall].
      split; [|assumption]. destruct acc; discriminate.
Qed.

Lemma visit_node_ok (directory : list file) (f : file) :
  In f directory -> endswith (filename f) ".json" = true ->
  forall (n : node) (st : dict (list value) * value),
    recorded_ok directory (fst st) ->
    recorded_ok directory (fst (visit_node (json_data f) st n)).
Proof.
  intros Hf Hjson n st Hst. unfold visit_node. simpl.
  apply scan_edges_ok with (f := f);
    [assumption | assumption | apply incl_refl | intros s [] | assumption].
Qed.

Lemma visit_file_ok (directory : list file) (f : file) :
  In f directory ->
  forall st, recorded_ok directory (fst st) ->
             recorded_ok directory (fst (visit_file st f)).
Proof.
  intros Hf st Hst. unfold visit_file.
  destruct (endswith (filename f) ".json") eqn:Hjson; [|assumption].
  revert st Hst. induction (nodes (json_data f)) as [|n ns IH]; simpl; intros st Hst.
  - assumption.
  - apply IH. now apply visit_node_ok.
Qed.

Lemma interesting_nodes_ok (directory : list file) :
  recorded_ok directory (interesting_nodes directory).
Proof.
  unfold interesting_nodes.
  assert (H : forall fs st, incl fs directory ->
            recorded_ok directory (fst st) ->
            recorded_ok directory (fst (fold_left visit_file fs st))).
  { induction fs as [|f fs IH]; simpl; intros st Hincl Hst.
    - assumption.
    - apply IH; [intros x Hx; apply Hincl; now right|].
      apply visit_file_ok; [apply Hincl; now left | assumption]. }
  apply H; [apply incl_refl|].
  split; [constructor | intros k srcs []].
Qed.

Lemma in_keys_entry (V : Type) (k : value) (d : dict V) :
  In k (keys d) <-> exists v, In (k, v) d.
Proof.
  unfold keys. rewrite in_map_iff. split.
  - intros ([k' v] & E & H). simpl in E. subst k'. eauto.
  - intros (v & H). exists (k, v). now split.
Qed.

(** A key is recorded only for a node some edge of the corpus points to. *)
Lemma recorded_has_incoming (directory : list file) (k : value) :
  In k (keys (interesting_nodes directory)) -> exists s, feeds directory s k.
Proof.
  intros H. apply in_keys_entry in H. destruct H as (srcs & H).
  destruct (interesting_nodes_ok directory) as (_ & Hall).
  destruct (Hall k srcs H) as (Hne & Hs).
  destruct srcs as [|s srcs]; [contradiction|].
  exists s. apply Hs. now left.
Qed.

End AifFacts.

(** ** Graphs *)

Section GraphFacts.
Import Py Nx.

Lemma joins_sym (u v : value) (e : value * value) : joins u v e = joins v u e.
Proof. unfold joins. apply orb_comm. Qed.

Lemma has_edge_sym (G : Graph) (u v : value) : has_edge G u v = has_edge G v u.
Proof.
  unfold has_edge. induction (g_edges G) as [|e r IH]; simpl.
  - reflexivity.
  - now rewrite IH, joins_sym.
Qed.

Lemma joins_pair (a b u v : value) :
  joins a b (u, v) = true <-> (u = a /\ v = b) \/ (u = b /\ v = a).
Proof.
  unfold joins. simpl. rewrite orb_true_iff, !andb_true_iff, !value_eqb_eq.
  tauto.
Qed.

Lemma add_node_nodes (n : value) (G : Graph) (x : value) :
  In x (g_nodes (add_node n G)) <-> x = n \/ In x (g_nodes G).
Proof.
  unfold add_node. destruct (mem n (g_nodes G)) eqn:E; simpl.
  - apply mem_In in E. split; [tauto | intros [->|H]; assumption].
  - rewrite in_app_iff. simpl. intuition.
Qed.

Lemma add_node_edges (n : value) (G : Graph) :
  g_edges (add_node n G) = g_edges G.
Proof. unfold add_node. now destruct (mem n (g_nodes G)). Qed.

Lemma add_node_NoDup (n : value) (G : Graph) :
  NoDup (g_nodes G) -> NoDup (g_nodes (add_node n G)).
Proof.
  intros H. unfold add_node. destruct (mem n (g_nodes G)) eqn:E; simpl.
  - assumption.
  - apply NoDup_app; [assumption | constructor; [intros [] | constructor] |].
    intros x Hx [<-|[]]. apply mem_In in Hx. congruence.
Qed.

Lemma add_nodes_from_spec (ns : list value) (G : Graph) :
  (forall x, In x (g_nodes (add_nodes_from ns G)) <-> In x ns \/ In x (g_nodes G))
  /\ g_edges (add_nodes_from ns G) = g_edges G
  /\ (NoDup (g_nodes G) -> NoDup (g_nodes (add_nodes_from ns G))).
Proof.
  unfold add_nodes_from. revert G.
  induction ns as [|n ns IH]; simpl; intros G.
  - repeat split; tauto.
  - destruct (IH (add_node n G)) as (Hn & He & Hd). repeat split.
    + intros H. apply Hn in H. rewrite add_node_nodes in H. intuition.
    + intros H. apply Hn. rewrite add_node_nodes. intuition.
    + now rewrite He, add_node_edges.
    + intros H. now apply Hd, add_node_NoDup.
Qed.

Lemma add_edge_nodes (u v : value) (G : Graph) (x : value) :
  In x (g_nodes (add_edge u v G)) <-> x = u \/ x = v \/ In x (g_nodes G).
Proof.
  unfold add_edge.
  destruct (has_edge (add_node v (add_node u G)) u v); simpl;
    rewrite !add_node_nodes; tauto.
Qed.

Lemma add_edge_NoDup (u v : value) (G : Graph) :
  NoDup (g_nodes G) -> NoDup (g_nodes (add_edge u v G)).
Proof.
  intros H. unfold add_edge.
  destruct (has_edge (add_node v (add_node u G)) u v); simpl;
    now apply add_node_NoDup, add_node_NoDup.
Qed.

Lemma add_edge_has_edge (u v : value) (G : Graph) (a b : value) :
  has_edge (add_edge u v G) a b = has_edge G a b || joins a b (u, v).
Proof.
  unfold add_edge.
  assert (E : forall x y, has_edge (add_node v (add_node u G)) x y = has_edge G x y).
  { intros x y. unfold has_edge. now rewrite !add_node_edges. }
  destruct (has_edge (add_node v (add_node u G)) u v) eqn:Huv.
  - rewrite E. rewrite E in Huv.
    destruct (joins a b (u, v)) eqn:J; [|now rewrite orb_false_r].
    rewrite orb_true_r. apply joins_pair in J.
    destruct J as [[-> ->]|[-> ->]]; [assumption | now rewrite has_edge_sym].
  - unfold has_edge at 1. simpl. rewrite existsb_app. simpl.
    rewrite orb_false_r. fold (has_edge (add_node v (add_node u G)) a b).
    now rewrite E.
Qed.

Lemma add_edges_from_spec (es : list (value * value)) (G : Graph) :
  (forall x, In x (g_nodes (add_edges_from es G)) <->
             In x (g_nodes G) \/ exists e, In e es /\ (x = fst e \/ x = snd e))
  /\ (forall a b, has_edge (add_edges_from es G) a b =
                  has_edge G a b || existsb (joins a b) es)
  /\ (NoDup (g_nodes G) -> NoDup (g_nodes (add_edges_from es G))).
Proof.
  unfold add_edges_from. revert G.
  induction es as [|[u v] es IH]; simpl; intros G.
  - repeat split; try tauto.
    + intros [H|(e & [] & _)]. assumption.
    + intros a b. now rewrite orb_false_r.
  - destruct (IH (add_edge u v G)) as (Hn & He & Hd). repeat split.
    + intros H. apply Hn in H. rewrite add_edge_nodes in H.
      destruct H as [[->|[->|H]]|(e & He' & Hx)].
      * right. exists (u, v). simpl. tauto.
      * right. exists (u, v). simpl. tauto.
      * now left.
      * right. exists e. tauto.
    + intros H. apply Hn. rewrite add_edge_nodes.
      destruct H as [H|(e & [<-|He'] & Hx)]; simpl in *.
      * tauto.
      * tauto.
      * right. exists e. tauto.
    + intros a b. now rewrite He, add_edge_has_edge, orb_assoc.
    + intros H. now apply Hd, add_edge_NoDup.
Qed.

End GraphFacts.

(** ** The reference graph *)

Section ReferenceFacts.
Import Py Nx Reference.

Lemma collect_fold (d : dict (list value)) (acc : list value * list (value * value)) :
  fold_left collect d acc =
  (fst acc ++ flat_map (fun item => fst item :: snd item) d,
   snd acc ++ flat_map (fun item => map (fun v => (v, fst item)) (snd item)) d).
Proof.
  revert acc. induction d as [|item d IH]; intros [ns es]; simpl.
  - now rewrite !app_nil_r.
  - rewrite IH. unfold collect. simpl. now rewrite <- !app_assoc.
Qed.

Lemma list_of_nodes_spec (d : dict (list value)) (x : value) :
  In x (list_of_nodes d) <->
  exists k srcs, In (k, srcs) d /\ (x = k \/ In x srcs).
Proof.
  unfold list_of_nodes. rewrite collect_fold. simpl. rewrite in_flat_map. split.
  - intros ([k srcs] & Hin & [H|H]); simpl in *; exists k, srcs; split; auto.
  - intros (k & srcs & Hin & H). exists (k, srcs). simpl. split; [assumption|].
    destruct H as [->|H]; auto.
Qed.

Lemma list_of_edges_spec (d : dict (list value)) (u v : value) :
  In (u, v) (list_of_edges d) <-> exists srcs, In (v, srcs) d /\ In u srcs.
Proof.
  unfold list_of_edges. rewrite collect_fold. simpl. rewrite in_flat_map. split.
  - intros ([k srcs] & Hin & H). simpl in H. apply in_map_iff in H.
    destruct H as (s & E & Hs). inversion E; subst. eauto.
  - intros (srcs & Hin & Hu). exists (v, srcs). split; [assumption|].
    simpl. apply in_map_iff. eauto.
Qed.

(** The nodes of the reference graph are the recorded keys and their
    sources. *)
Lemma sub_graph_nodes (d : dict (list value)) (x : value) :
  In x (g_nodes (sub_graph d)) <->
  exists k srcs, In (k, srcs) d /\ (x = k \/ In x srcs).
Proof.
  unfold sub_graph.
  destruct (add_edges_from_spec (list_of_edges d)
              (add_nodes_from (list_of_nodes d) empty_graph)) as (Hn & _ & _).
  destruct (add_nodes_from_spec (list_of_nodes d) empty_graph) as (Hn' & _ & _).
  rewrite Hn, Hn', list_of_nodes_spec. simpl. split.
  - intros [[H|[]]|([u v] & He & Hx)]; [assumption|].
    apply list_of_edges_spec in He. destruct He as (srcs & Hin & Hu).
    exists v, srcs. simpl in Hx. destruct Hx as [->| ->]; auto.
  - intros H. left. now left.
Qed.

Lemma sub_graph_NoDup (d : dict (list value)) : NoDup (g_nodes (sub_graph d)).
Proof.
  unfold sub_graph.
  destruct (add_edges_from_spec (list_of_edges d)
              (add_nodes_from (list_of_nodes d) empty_graph)) as (_ & _ & Hd).
  destruct (add_nodes_from_spec (list_of_nodes d) empty_graph) as (_ & _ & Hd').
  apply Hd, Hd'. constructor.
Qed.

(** Two nodes are adjacent exactly when one is a recorded key and the other
    one of its sources. *)
Lemma sub_graph_has_edge (d : dict (list value)) (a b : value) :
  has_edge (sub_graph d) a b = true <->
  exists k srcs, In (k, srcs) d /\ ((a = k /\ In b srcs) \/ (b = k /\ In a srcs)).
Proof.
  unfold sub_graph.
  destruct (add_edges_from_spec (list_of_edges d)
              (add_nodes_from (list_of_nodes d) empty_graph)) as (_ & He & _).
  destruct (add_nodes_from_spec (list_of_nodes d) empty_graph) as (_ & He' & _).
  rewrite He. unfold has_edge at 1. rewrite He'. simpl.
  rewrite existsb_exists. split.
  - intros ([u v] & Hin & J). apply joins_pair in J.
    apply list_of_edges_spec in Hin. destruct Hin as (srcs & Hin & Hu).
    exists v, srcs. split; [assumption|].
    destruct J as [[-> ->]|[-> ->]]; tauto.
  - intros (k & srcs & Hin & [[-> Hs]|[-> Hs]]).
    + exists (b, k). split; [apply list_of_edges_spec; eauto|].
      apply joins_pair. tauto.
    + exists (a, k). split; [apply list_of_edges_spec; eauto|].
      apply joins_pair. tauto.
Qed.

End ReferenceFacts.

(** ** Deleting the relation nodes, sorting, ranking *)

Section CentralityFacts.
Import Py Nx Reference.

Variable V : Type.

Lemma delete_relation_nodes_spec (d : dict (list value)) :
  NoDup (keys d) ->
  forall c : dict V,
    NoDup (keys c) ->
    (forall k, In k (keys d) -> In k (keys c)) ->
    exists c',
      delete_relation_nodes d c = Some c' /\ NoDup (keys c') /\
      forall x, In x (keys c') <-> In x (keys c) /\ ~ In x (keys d).
Proof.
  unfold delete_relation_nodes.
  induction d as [|[k srcs] r IH]; simpl; intros Hd c Hc Hsub.
  - exists c. repeat split; tauto.
  - inversion Hd as [|? ? Hk Hr]; subst.
    destruct (dict_del_present k c (Hsub k (or_introl eq_refl))) as (c1 & E1).
    rewrite E1.
    destruct (dict_del_keys k c Hc E1) as (Hc1 & Hiff1).
    destruct (IH Hr c1 Hc1) as (c' & E' & Hc' & Hiff').
    { intros x Hx. apply Hiff1. split; [apply Hsub; now right|].
      intros ->. contradiction. }
    exists c'. split; [assumption|]. split; [assumption|].
    intros x. rewrite Hiff', Hiff1. intuition congruence.
Qed.

Variable ltb : V -> V -> bool.

Lemma insert_desc_perm (K : Type) (x : K * V) (l : list (K * V)) :
  Permutation (insert_desc ltb x l) (x :: l).
Proof.
  induction l as [|y r IH]; simpl.
  - apply Permutation_refl.
  - destruct (ltb (snd x) (snd y)).
    + eapply perm_trans; [apply perm_skip, IH | apply perm_swap].
    + apply Permutation_refl.
Qed.

Lemma sorted_desc_perm (K : Type) (l : list (K * V)) :
  Permutation (sorted_desc ltb l) l.
Proof.
  unfold sorted_desc. induction l as [|x r IH]; simpl.
  - apply Permutation_refl.
  - eapply perm_trans; [apply insert_desc_perm | now apply perm_skip].
Qed.

(** The result is in descending order: no item is followed by one of
    strictly greater score. *)
Lemma insert_desc_sorted (K : Type) (x : K * V) (l : list (K * V)) :
  (forall a b c, ltb a b = false -> ltb b c = false -> ltb a c = false) ->
  (forall a b, ltb a b = true -> ltb b a = false) ->
  StronglySorted (fun p q => ltb (snd p) (snd q) = false) l ->
  StronglySorted (fun p q => ltb (snd p) (snd q) = false) (insert_desc ltb x l).
Proof.
  intros Htrans Hasym. induction l as [|y r IH]; simpl; intros Hs.
  - constructor; constructor.
  - inversion Hs as [|? ? Hr Hy]; subst.
    destruct (ltb (snd x) (snd y)) eqn:E.
    + constructor; [now apply IH|].
      apply Forall_forall. intros z Hz.
      apply (Permutation_in _ (insert_desc_perm x r)) in Hz.
      destruct Hz as [<-|Hz]; [now apply Hasym|].
      rewrite Forall_forall in Hy. now apply Hy.
    + constructor; [assumption|]. constructor; [assumption|].
      apply Forall_forall. intros z Hz. rewrite Forall_forall in Hy.
      apply Htrans with (snd y); [assumption | now apply Hy].
Qed.

Lemma sorted_desc_sorted (K : Type) (l : list (K * V)) :
  (forall a b c, ltb a b = false -> ltb b c = false -> ltb a c = false) ->
  (forall a b, ltb a b = true -> ltb b a = false) ->
  StronglySorted (fun p q => ltb (snd p) (snd q) = false) (sorted_desc ltb l).
Proof.
  intros Htrans Hasym. unfold sorted_desc.
  induction l as [|x r IH]; simpl; [constructor|].
  now apply insert_desc_sorted.
Qed.

Lemma sorted_desc_keys (K : Type) (l : list (K * V)) (x : K) :
  In x (map fst (sorted_desc ltb l)) <-> In x (map fst l).
Proof.
  split; apply Permutation_in, Permutation_map;
    [apply sorted_desc_perm | apply Permutation_sym, sorted_desc_perm].
Qed.

End CentralityFacts.

Section SortedScores.
Import Py Reference.
Open Scope R_scope.

Lemma Rltb_false (a b : R) : Rltb a b = false <-> b <= a.
Proof.
  unfold Rltb. destruct (Rlt_dec a b); split; intros H;
    try discriminate; try reflexivity; lra.
Qed.

(** The sorted scores go down: every item is followed only by items of
    score at most its own. *)
Lemma sorted_scores_descending (K : Type) (l : list (K * R)) :
  StronglySorted (fun p q => snd q <= snd p) (sorted_desc Rltb l).
Proof.
  assert (H : StronglySorted (fun p q : K * R => Rltb (snd p) (snd q) = false)
                (sorted_desc Rltb l)).
  { apply sorted_desc_sorted.
    - intros a b c. rewrite !Rltb_false. lra.
    - intros a b Hab. apply Rltb_false. unfold Rltb in Hab.
      destruct (Rlt_dec a b); [lra | discriminate]. }
  induction H as [|p r Hr IH Hp]; constructor; [assumption|].
  apply Forall_forall. intros q Hq. rewrite Forall_forall in Hp.
  now apply Rltb_false, Hp.
Qed.

End SortedScores.

(** ** The claims about the reference graph and the rank aligner *)

Section ReferenceClaims.
Import Py Aif Nx Reference Examples.
Open Scope string_scope.

(** C1, as stated, fails twice.  In a nodeset where the premises [A] and
    [B] both feed the RA node [R], the reference graph has the edges [A - R]
    and [B - R] only: the two sources of the same relation node are not
    adjacent to each other.  And in the nodeset [undercut_json] the node
    [R2], of type "CA" and a source of [R1], is still scored after the
    deletion: not only propositions remain. *)
Lemma C1_counterexample :
  (In (PStr "R", [PStr "A"; PStr "B"]) (interesting_nodes two_premises) /\
   has_edge (sub_graph (interesting_nodes two_premises)) (PStr "A") (PStr "B")
   = false) /\
  (In {| type := "CA"; nodeID := PStr "R2"; text := "Default Conflict" |}
      (nodes undercut_json) /\
   exists scores,
     sorted_scores_onGraph unit_scores (interesting_nodes undercut)
     = Returned scores /\
     In (PStr "R2") (map fst scores)).
Proof.
  split; [split; [left; reflexivity | reflexivity] | split].
  - right. right. right. left. reflexivity.
  - exists (sorted_desc Rltb [(PStr "P", 1%R); (PStr "R2", 1%R)]).
    split; [reflexivity|].
    apply sorted_desc_keys. right. left. reflexivity.
Qed.

(** C1, amended: for every corpus, each source recorded for a relation node
    is adjacent (undirected) to that relation node in the reference graph.
    Two nodes are adjacent exactly when one is a recorded relation node and
    the other one of its recorded sources, so two sources of one relation
    node are adjacent to each other only when one of them is itself a
    recorded relation node that has the other as a source, and never when
    neither is a recorded relation node.  Once the centrality is computed,
    every recorded relation node is deleted from it and the sorted result
    scores exactly the remaining nodes of the graph. *)
Theorem C1_sources_meet_at_the_hub
  (directory : list file)
  (eigenvector_centrality : Graph -> nat -> R -> outcome (dict R))
  (centrality : dict R) (key : value) (srcs : list value) (s : value) :
  let d := interesting_nodes directory in
  let G := sub_graph d in
  In (key, srcs) d -> In s srcs ->
  eigenvector_centrality G 500%nat (1 / 1000000)%R = Returned centrality ->
  keys centrality = g_nodes G ->
  has_edge G s key = true /\ has_edge G key s = true /\
  (forall u v, has_edge G u v = true -> In u (keys d) \/ In v (keys d)) /\
  (forall u v, has_edge G u v = true <->
     exists k l, In (k, l) d /\ ((u = k /\ In v l) \/ (v = k /\ In u l))) /\
  (forall s', In s' srcs -> ~ In s (keys d) -> ~ In s' (keys d) ->
              has_edge G s s' = false) /\
  exists scores,
    sorted_scores_onGraph eigenvector_centrality d = Returned scores /\
    ~ In key (map fst scores) /\
    forall x, In x (map fst scores) <-> In x (g_nodes G) /\ ~ In x (keys d).
Proof.
  intros d G Hkey Hs Hrun Hkeys.
  assert (Hadj : has_edge G s key = true).
  { apply sub_graph_has_edge. exists key, srcs. tauto. }
  assert (Hends : forall u v, has_edge G u v = true ->
                              In u (keys d) \/ In v (keys d)).
  { intros u v H. apply sub_graph_has_edge in H.
    destruct H as (k & l & Hin & [[-> _]|[-> _]]);
      [left | right]; apply in_keys_entry; eauto. }
  split; [assumption|]. split; [now rewrite has_edge_sym|].
  split; [assumption|].
  split; [intros u v; apply sub_graph_has_edge|]. split.
  - intros s' _ Hns Hns'.
    destruct (has_edge G s s') eqn:E; [|reflexivity].
    destruct (Hends s s' E); contradiction.
  - destruct (interesting_nodes_ok directory) as (Hnd & _). fold d in Hnd.
    destruct (@delete_relation_nodes_spec R d Hnd centrality)
      as (c' & Hdel & _ & Hiff).
    + rewrite Hkeys. apply sub_graph_NoDup.
    + intros k Hk. rewrite Hkeys. apply sub_graph_nodes.
      apply in_keys_entry in Hk. destruct Hk as (l & Hl). eauto.
    + exists (sorted_desc Rltb c'). unfold sorted_scores_onGraph.
      fold d. fold G. rewrite Hrun, Hdel. split; [reflexivity|].
      assert (Hx : forall x, In x (map fst (sorted_desc Rltb c')) <->
                             In x (g_nodes G) /\ ~ In x (keys d)).
      { intros x. rewrite sorted_desc_keys. fold (keys c').
        rewrite Hiff, Hkeys. tauto. }
      split; [|assumption].
      intros H. apply Hx in H. destruct H as (_ & H). apply H.
      apply in_keys_entry. eauto.
Qed.

Lemma C1_sources_meet_at_the_hub_witness :
  has_edge (sub_graph (interesting_nodes two_premises)) (PStr "A") (PStr "R")
  = true /\
  has_edge (sub_graph (interesting_nodes two_premises)) (PStr "A") (PStr "B")
  = false /\
  exists scores,
    sorted_scores_onGraph unit_scores (interesting_nodes two_premises)
    = Returned scores /\
    ~ In (PStr "R") (map fst scores).
Proof.
  destruct (@C1_sources_meet_at_the_hub two_premises unit_scores
              [(PStr "R", 1%R); (PStr "A", 1%R); (PStr "B", 1%R)]
              (PStr "R") [PStr "A"; PStr "B"] (PStr "A"))
    as (H1 & _ & _ & _ & H4 & scores & H2 & H3 & _).
  - left. reflexivity.
  - left. reflexivity.
  - reflexivity.
  - reflexivity.
  - split; [exact H1|]. split.
    + apply H4.
      * right. left. reflexivity.
      * intros [H|[]]. discriminate.
      * intros [H|[]]. discriminate.
    + exists scores. split; assumption.
Defined.

(** C10, as stated, fails twice.  In the nodeset [undercut_json] nothing
    points at the CA node [R2], which is therefore not recorded as a key,
    yet [R2] is a source of [R1], enters the reference graph, is scored and
    survives the deletion.  And over two nodesets the RA node [R], which has
    no incoming edge in its own nodeset, is recorded all the same, through an
    edge of the next file read while the variable [nodeID] still holds
    [R]. *)
Lemma C10_counterexample :
  ((forall e, In e (edges undercut_json) -> toID e <> PStr "R2") /\
   In (PStr "R2") (g_nodes (sub_graph (interesting_nodes undercut))) /\
   keys [(PStr "R1", 1%R); (PStr "P", 1%R); (PStr "R2", 1%R)]
   = g_nodes (sub_graph (interesting_nodes undercut)) /\
   delete_relation_nodes (interesting_nodes undercut)
     [(PStr "R1", 1%R); (PStr "P", 1%R); (PStr "R2", 1%R)]
   = Some [(PStr "P", 1%R); (PStr "R2", 1%R)]) /\
  ((forall e, In e (edges first_json) -> toID e <> PStr "R") /\
   In (PStr "R") (keys (interesting_nodes two_nodesets))).
Proof.
  split; [split; [|split; [|split]] | split].
  - intros e [<-|[<-|[<-|[]]]]; discriminate.
  - right. right. left. reflexivity.
  - reflexivity.
  - reflexivity.
  - intros e [<-|[]]; discriminate.
  - left. reflexivity.
Qed.

(** C10, amended: for every corpus, a node that no edge of the corpus points
    to is never recorded as a key of the relation map; every recorded key
    has at least one source and is a node of the reference graph, so over a
    centrality keyed by the nodes of that graph the deletion loop finds
    every key it deletes and ends without a missing-key error. *)
Theorem C10_deletion_finds_every_key
  (directory : list file) (r : value) (centrality : dict R) :
  let d := interesting_nodes directory in
  (forall f e, In f directory -> In e (edges (json_data f)) -> toID e <> r) ->
  keys centrality = g_nodes (sub_graph d) ->
  ~ In r (keys d) /\
  (forall key srcs, In (key, srcs) d -> srcs <> []) /\
  (forall key, In key (keys d) -> In key (keys centrality)) /\
  exists centrality', delete_relation_nodes d centrality = Some centrality'.
Proof.
  intros d Hno Hkeys.
  destruct (interesting_nodes_ok directory) as (Hnd & Hall). fold d in Hnd, Hall.
  assert (Hsub : forall key, In key (keys d) -> In key (keys centrality)).
  { intros k Hk. rewrite Hkeys. apply sub_graph_nodes.
    apply in_keys_entry in Hk. destruct Hk as (l & Hl). eauto. }
  split; [|split; [|split]].
  - intros Hr. apply recorded_has_incoming in Hr.
    destruct Hr as (s & f & e & Hf & _ & He & _ & Hto).
    exact (Hno f e Hf He Hto).
  - intros key srcs Hin. now destruct (Hall key srcs Hin).
  - assumption.
  - destruct (@delete_relation_nodes_spec R d Hnd centrality)
      as (c' & Hdel & _); [rewrite Hkeys; apply sub_graph_NoDup | assumption |].
    eauto.
Qed.

Lemma C10_deletion_finds_every_key_witness :
  ~ In (PStr "C") (keys (interesting_nodes undercut)) /\
  exists centrality',
    delete_relation_nodes (interesting_nodes undercut)
      [(PStr "R1", 1%R); (PStr "P", 1%R); (PStr "R2", 1%R)]
    = Some centrality'.
Proof.
  destruct (@C10_deletion_finds_every_key undercut (PStr "C")
              [(PStr "R1", 1%R); (PStr "P", 1%R); (PStr "R2", 1%R)])
    as (H1 & _ & _ & H2).
  - intros f e [<-|[]] [<-|[<-|[<-|[]]]]; discriminate.
  - reflexivity.
  - split; assumption.
Defined.

(** C2, as stated, fails: against a ranking of one entry an absent
    proposition gets rank 1173, not 1, the rank one past the last valid one;
    and against a ranking of 1174 entries the sentinel 1173 is also the
    genuine rank of the last entry. *)
Lemma C2_counterexample :
  (~ In (PStr "b") [PStr "a"] /\
   rank_of [PStr "a"] (PStr "b") = 1173%nat /\
   rank_of [PStr "a"] (PStr "b") <> List.length [PStr "a"]) /\
  (In (PInt 1173) long_ranking /\ ~ In (PStr "b") long_ranking /\
   rank_of long_ranking (PInt 1173) = rank_of long_ranking (PStr "b")).
Proof.
  split; [split; [|split] | split; [|split]].
  - intros [H|[]]; discriminate.
  - reflexivity.
  - vm_compute. discriminate.
  - apply mem_In. vm_compute. reflexivity.
  - intros H. apply mem_In in H. vm_compute in H. discriminate.
  - vm_compute. reflexivity.
Qed.

(** C2, amended: for every ranking and every proposition absent from it the
    rank aligner assigns the fixed rank 1173, whatever the length of the
    ranking, and raises nothing: the column it builds has one rank per row
    of the frame.  A proposition that is present gets its position, below
    the length of the ranking; so 1173 lies outside the valid ranks exactly
    as long as the ranking has at most 1173 entries. *)
Theorem C2_absent_gets_1173
  (ranking index : list value) (row0 : value) :
  ~ In row0 ranking ->
  rank_of ranking row0 = 1173%nat /\
  List.length (rankings ranking index) = List.length index /\
  (forall x, In x ranking ->
     (rank_of ranking x < List.length ranking)%nat /\
     nth_error ranking (rank_of ranking x) = Some x) /\
  ((List.length ranking <= 1173)%nat ->
   forall x, In x ranking -> rank_of ranking x <> 1173%nat).
Proof.
  intros Habs.
  assert (Hpres : forall x, In x ranking ->
            (rank_of ranking x < List.length ranking)%nat /\
            nth_error ranking (rank_of ranking x) = Some x).
  { intros x Hx. unfold rank_of.
    destruct (list_index x ranking) as [k|] eqn:E.
    - destruct (list_index_present x ranking E) as (Hlt & Hnth & _). tauto.
    - apply list_index_absent in E. contradiction. }
  split; [|split; [|split]].
  - unfold rank_of. apply list_index_absent in Habs. now rewrite Habs.
  - unfold rankings. apply length_map.
  - assumption.
  - intros Hlen x Hx. destruct (Hpres x Hx) as (Hlt & _). lia.
Qed.

Lemma C2_absent_gets_1173_witness :
  rank_of [PStr "a"] (PStr "b") = 1173%nat /\
  List.length (rankings [PStr "a"] [PStr "a"; PStr "b"]) = 2%nat.
Proof.
  destruct (@C2_absent_gets_1173 [PStr "a"] [PStr "a"; PStr "b"] (PStr "b"))
    as (H1 & H2 & _).
  - intros [H|[]]; discriminate.
  - split; assumption.
Defined.

End ReferenceClaims.

(** ** Bounds on the natural logarithm *)

Section LogBounds.
Import Bounds.
Open Scope R_scope.

Lemma sq_chain_sound (n : nat) :
  forall (M c : Z) (t : R),
    (0 < M)%Z -> (0 <= c)%Z -> IZR c / IZR M <= exp t ->
    IZR (sq_chain M c n) / IZR M <= exp (t * 2 ^ n).
Proof.
  induction n as [|n IH]; intros M c t HM Hc H; simpl.
  - now rewrite Rmult_1_r.
  - replace (t * (2 * 2 ^ n)) with ((t + t) * 2 ^ n) by ring.
    apply IH; [assumption | apply Z.div_pos; [apply Z.mul_nonneg_nonneg|]; assumption |].
    rewrite exp_plus.
    assert (HMr : 0 < IZR M) by now apply IZR_lt.
    assert (Hcr : 0 <= IZR c) by now apply IZR_le.
    assert (Hq : IZR M * IZR (c * c / M) <= IZR c * IZR c).
    { rewrite <- !mult_IZR. apply IZR_le. apply Z.mul_div_le. assumption. }
    assert (H0 : 0 <= IZR c / IZR M).
    { apply Rmult_le_pos; [assumption | left; now apply Rinv_0_lt_compat]. }
    apply Rle_trans with (IZR c / IZR M * (IZR c / IZR M)).
    + apply Rmult_le_reg_r with (IZR M * IZR M); [nra|].
      field_simplify; [|lra|lra]. nra.
    + apply Rmult_le_compat; assumption.
Qed.

Lemma exp_below_5 : exp (16094 / 10000) < 5.
Proof.
  pose (M := (10 ^ 18)%Z). pose (c := 999975442504882812%Z).
  assert (H : IZR (sq_chain M c 16) / IZR M <= exp (- (16094 / 10000) / 65536 * 2 ^ 16)).
  { apply sq_chain_sound; [reflexivity | discriminate |].
    eapply Rle_trans; [|apply exp_ineq1_le]. unfold c, M. simpl. lra. }
  replace (- (16094 / 10000) / 65536 * 2 ^ 16) with (- (16094 / 10000)) in H
    by (simpl; lra).
  assert (Hz : (M < 5 * sq_chain M c 16)%Z) by (vm_compute; reflexivity).
  apply IZR_lt in Hz. rewrite mult_IZR in Hz.
  assert (HM : 0 < IZR M) by (apply IZR_lt; reflexivity).
  rewrite exp_Ropp in H.
  assert (He := exp_pos (16094 / 10000)).
  set (e := exp (16094 / 10000)) in *.
  set (v := IZR (sq_chain M c 16)) in *.
  assert (Hv : v * e <= IZR M).
  { apply Rmult_le_reg_r with (/ IZR M); [now apply Rinv_0_lt_compat|].
    apply Rmult_le_reg_r with (/ e); [now apply Rinv_0_lt_compat|].
    replace (v * e * / IZR M * / e) with (v / IZR M) by (field; lra).
    replace (IZR M * / IZR M * / e) with (/ e) by (field; lra).
    assumption. }
  nra.
Qed.

Lemma exp_above_5 : 5 < exp (160965 / 100000).
Proof.
  pose (M := (10 ^ 18)%Z). pose (c := 1000098245239257812%Z).
  assert (H : IZR (sq_chain M c 14) / IZR M <= exp (160965 / 100000 / 16384 * 2 ^ 14)).
  { apply sq_chain_sound; [reflexivity | discriminate |].
    eapply Rle_trans; [|apply exp_ineq1_le]. unfold c, M. simpl. lra. }
  replace (160965 / 100000 / 16384 * 2 ^ 14) with (160965 / 100000) in H
    by (simpl; lra).
  assert (Hz : (5 * M < sq_chain M c 14)%Z) by (vm_compute; reflexivity).
  apply IZR_lt in Hz. rewrite mult_IZR in Hz.
  assert (HM : 0 < IZR M) by (apply IZR_lt; reflexivity).
  set (v := IZR (sq_chain M c 14)) in *.
  apply Rlt_le_trans with (v / IZR M); [|assumption].
  apply Rmult_lt_reg_r with (IZR M); [assumption|].
  unfold Rdiv. rewrite Rmult_assoc, Rinv_l by lra. lra.
Qed.

Lemma ln5_lower : 16094 / 10000 < ln 5.
Proof.
  apply exp_lt_inv. rewrite exp_ln by lra. apply exp_below_5.
Qed.

Lemma ln5_upper : ln 5 < 160965 / 100000.
Proof.
  apply exp_lt_inv. rewrite exp_ln by lra. apply exp_above_5.
Qed.

Lemma ln_INR_pos (n : nat) : (2 <= n)%nat -> 0 < ln (INR n).
Proof.
  intros H. rewrite <- ln_1. apply ln_increasing; [lra|].
  apply lt_1_INR. lia.
Qed.

(** [ln n < n / 2] for every positive [n]: [exp (n/4)] exceeds [1 + n/4]
    and the square of that is at least [n]. *)
Lemma ln_below_half (x : R) : 0 < x -> ln x < x / 2.
Proof.
  intros Hx. apply exp_lt_inv. rewrite exp_ln by assumption.
  replace (x / 2) with (x / 4 + x / 4) by field. rewrite exp_plus.
  assert (H : 1 + x / 4 < exp (x / 4)) by (apply exp_ineq1; lra).
  set (e := exp (x / 4)) in *.
  assert (H1 : (1 + x / 4) * (1 + x / 4) < e * e)
    by (apply Rmult_le_0_lt_compat; lra).
  assert (H2 : 0 <= (x / 4 - 1) * (x / 4 - 1)) by apply Rle_0_sqr.
  lra.
Qed.

End LogBounds.

(** ** The overlap similarity *)

Section OverlapFacts.
Import Pd Similarity.
Open Scope R_scope.

Lemma in_common (a b : list string) (w : string) :
  In w (common a b) <-> In w a /\ In w b.
Proof.
  unfold common. rewrite filter_In, nodup_In, existsb_exists. split.
  - intros (Ha & x & Hx & E). apply String.eqb_eq in E. subst x. tauto.
  - intros (Ha & Hb). split; [assumption|]. exists w.
    split; [assumption | apply String.eqb_refl].
Qed.

Lemma NoDup_common (a b : list string) : NoDup (common a b).
Proof. unfold common. apply NoDup_filter, NoDup_nodup. Qed.

Lemma common_length_sym (a b : list string) :
  List.length (common a b) = List.length (common b a).
Proof.
  apply Permutation_length, NoDup_Permutation; try apply NoDup_common.
  intros w. rewrite !in_common. tauto.
Qed.

Lemma common_self (a : list string) : common a a = nodup string_dec a.
Proof.
  unfold common.
  assert (H : forall l, incl l a ->
            filter (fun w => existsb (String.eqb w) a) l = l).
  { induction l as [|x l IH]; simpl; intros Hl; [reflexivity|].
    assert (E : existsb (String.eqb x) a = true).
    { apply existsb_exists. exists x.
      split; [apply Hl; now left | apply String.eqb_refl]. }
    rewrite E, IH; [reflexivity | intros y Hy; apply Hl; now right]. }
  apply H. intros x Hx. now apply nodup_In in Hx.
Qed.

(** Away from the degenerate lengths the measure is the quotient of the
    formula, a number: the denominator is positive. *)
Lemma overlap_similarity_value (a b : list string) :
  (2 <= List.length a)%nat -> (2 <= List.length b)%nat ->
  overlap_similarity a b =
  Fin (INR (List.length (common a b)) /
       (ln (INR (List.length a)) + ln (INR (List.length b)))).
Proof.
  intros Ha Hb. unfold overlap_similarity.
  assert (Ea : (List.length a <=? 1)%nat = false) by (apply Nat.leb_gt; lia).
  assert (Eb : (List.length b <=? 1)%nat = false) by (apply Nat.leb_gt; lia).
  rewrite Ea, Eb. simpl. unfold fdiv.
  pose proof (ln_INR_pos Ha). pose proof (ln_INR_pos Hb).
  destruct (Req_dec_T (ln (INR (List.length a)) + ln (INR (List.length b))) 0);
    [lra | reflexivity].
Qed.

Lemma overlap_similarity_degenerate (a b : list string) :
  (List.length a <= 1)%nat \/ (List.length b <= 1)%nat ->
  overlap_similarity a b = Fin 0.
Proof.
  intros H. unfold overlap_similarity.
  destruct H as [H|H]; apply Nat.leb_le in H; rewrite H;
    [reflexivity | now rewrite orb_true_r].
Qed.

Lemma overlap_similarity_sym (a b : list string) :
  overlap_similarity a b = overlap_similarity b a.
Proof.
  unfold overlap_similarity.
  rewrite (orb_comm (List.length a <=? 1)%nat), (common_length_sym a b).
  now rewrite (Rplus_comm (ln (INR (List.length a)))).
Qed.

Lemma overlap_example_value :
  overlap_similarity Text1 Text2 = Fin (2 / (ln 5 + ln 5)).
Proof.
  rewrite overlap_similarity_value by (simpl; lia).
  replace (INR (List.length (common Text1 Text2))) with 2
    by (vm_compute common; simpl; lra).
  replace (INR (List.length Text1)) with 5 by (simpl; lra).
  replace (INR (List.length Text2)) with 5 by (simpl; lra).
  reflexivity.
Qed.

(** C3, as stated, fails: the five distinct tokens of [Text1] have five
    tokens in common with themselves, and [5 / (log 5 + log 5)] is about
    1.55, not 1. *)
Lemma C3_counterexample :
  (2 <= List.length Text1)%nat /\ overlap_similarity Text1 Text1 <> Fin 1.
Proof.
  split; [simpl; lia|].
  rewrite overlap_similarity_value by (simpl; lia).
  rewrite common_self.
  replace (INR (List.length (nodup string_dec Text1))) with 5
    by (vm_compute nodup; simpl; lra).
  replace (INR (List.length Text1)) with 5 by (simpl; lra).
  intros E. inversion E as [E'].
  pose proof ln5_lower. pose proof ln5_upper.
  assert (Hd : ln 5 + ln 5 <> 0) by lra.
  apply (f_equal (fun x => x * (ln 5 + ln 5))) in E'.
  unfold Rdiv in E'. rewrite Rmult_assoc, Rinv_l in E' by assumption.
  lra.
Qed.

(** C3, amended: for every token sequence [a] of length at least 2 the
    overlap similarity of [a] with itself is the number of its distinct
    tokens over [2 log |a|]; it is 1 only when these two happen to agree, and
    it is strictly more than 1 whenever no token occurs twice. *)
Theorem C3_self_overlap (a : list string) :
  (2 <= List.length a)%nat ->
  overlap_similarity a a =
    Fin (INR (List.length (nodup string_dec a)) /
         (2 * ln (INR (List.length a)))) /\
  (NoDup a ->
   1 < INR (List.length (nodup string_dec a)) / (2 * ln (INR (List.length a)))).
Proof.
  intros Ha. split.
  - rewrite overlap_similarity_value by assumption. rewrite common_self.
    f_equal. f_equal. ring.
  - intros Hnd. rewrite (nodup_fixed_point string_dec Hnd).
    pose proof (ln_INR_pos Ha) as Hpos.
    assert (Hn : 0 < INR (List.length a)) by (apply lt_0_INR; lia).
    pose proof (ln_below_half Hn) as Hhalf.
    apply Rmult_lt_reg_r with (2 * ln (INR (List.length a))); [lra|].
    unfold Rdiv. rewrite Rmult_assoc, Rinv_l by lra. lra.
Qed.

Lemma C3_self_overlap_witness :
  overlap_similarity Text1 Text1 =
    Fin (INR (List.length (nodup string_dec Text1)) /
         (2 * ln (INR (List.length Text1)))) /\
  1 < INR (List.length (nodup string_dec Text1)) /
      (2 * ln (INR (List.length Text1))).
Proof.
  destruct (@C3_self_overlap Text1) as (H1 & H2).
  - simpl. lia.
  - split; [exact H1 | apply H2].
    repeat constructor; simpl; intuition discriminate.
Defined.

(** C4: for all token sequences [a] and [b] of length at least 2 the overlap
    similarity is the number of tokens common to both, counted without
    duplicates, over [log |a| + log |b|]; it is 0 when either sequence has
    length 0 or 1; and for the two texts of the notebook's example it is
    [2 / (log 5 + log 5)], which rounds to 0.6213. *)
Theorem C4_overlap_formula (a b : list string) :
  ((2 <= List.length a)%nat -> (2 <= List.length b)%nat ->
   overlap_similarity a b =
   Fin (INR (List.length (common a b)) /
        (ln (INR (List.length a)) + ln (INR (List.length b))))) /\
  ((List.length a <= 1)%nat \/ (List.length b <= 1)%nat ->
   overlap_similarity a b = Fin 0) /\
  (forall w, In w (common a b) <-> In w a /\ In w b) /\
  NoDup (common a b) /\
  overlap_similarity Text1 Text2 = Fin (2 / (ln 5 + ln 5)) /\
  62125 / 100000 < 2 / (ln 5 + ln 5) < 62135 / 100000.
Proof.
  split; [apply overlap_similarity_value|].
  split; [apply overlap_similarity_degenerate|].
  split; [intros w; apply in_common|].
  split; [apply NoDup_common|].
  split; [apply overlap_example_value|].
  pose proof ln5_lower as Hl. pose proof ln5_upper as Hu.
  assert (Hpos : 0 < ln 5 + ln 5) by lra.
  split.
  - apply Rmult_lt_reg_r with (ln 5 + ln 5); [assumption|].
    unfold Rdiv at 2. rewrite Rmult_assoc, Rinv_l by lra. lra.
  - apply Rmult_lt_reg_r with (ln 5 + ln 5); [assumption|].
    unfold Rdiv at 1. rewrite Rmult_assoc, Rinv_l by lra. lra.
Qed.

Lemma C4_overlap_formula_witness :
  overlap_similarity Text1 Text2 =
    Fin (INR (List.length (common Text1 Text2)) /
         (ln (INR (List.length Text1)) + ln (INR (List.length Text2)))) /\
  overlap_similarity ["tax"%string] Text2 = Fin 0.
Proof.
  destruct (@C4_overlap_formula Text1 Text2) as (H1 & _).
  destruct (@C4_overlap_formula ["tax"%string] Text2) as (_ & H2 & _).
  split.
  - apply H1; simpl; lia.
  - apply H2. left. simpl. lia.
Defined.

End OverlapFacts.

(** ** The embedding-centroid similarity and [fillna] *)

Section EmbeddingFacts.
Import Py Pd Word2Vec Similarity.
Open Scope R_scope.

Lemma dot_comm (u v : vec) : dot u v = dot v u.
Proof.
  revert v. induction u as [|x u IH]; intros [|y v]; simpl; try reflexivity.
  rewrite IH. ring.
Qed.

Lemma dot_self_nonneg (u : vec) : 0 <= dot u u.
Proof.
  induction u as [|x u IH]; simpl; [lra|].
  pose proof (Rle_0_sqr x) as H. unfold Rsqr in H. lra.
Qed.

Lemma cosine_sym (u v : vec) : cosine u v = cosine v u.
Proof.
  unfold cosine. now rewrite (dot_comm u v), (Rmult_comm (norm u)).
Qed.

Lemma raw_similarity_sym (cos : vec -> vec -> float) (ci cj : option vec) :
  (forall u v, cos u v = cos v u) ->
  raw_similarity cos ci cj = raw_similarity cos cj ci.
Proof.
  intros H. destruct ci, cj; simpl; auto.
Qed.

(** The cosine of a centroid with itself is never infinite: a zero norm
    means a zero numerator, hence NaN. *)
Lemma cosine_self (u : vec) :
  cosine u u = NaN \/ cosine u u = Fin 1.
Proof.
  unfold cosine, fdiv, norm.
  pose proof (dot_self_nonneg u) as Hpos.
  destruct (Req_dec_T (sqrt (dot u u) * sqrt (dot u u)) 0) as [E|E].
  - rewrite sqrt_sqrt in E by assumption.
    destruct (Req_dec_T (dot u u) 0); [now left | contradiction].
  - right. rewrite sqrt_sqrt in * by assumption. f_equal. now field.
Qed.

Lemma fillna_cell_not_nan (v : R) (c : float) : fillna_cell v c <> NaN.
Proof. destruct c; discriminate. Qed.

Lemma entry_map (f : float -> float) (A : list (list float)) (i j : nat) :
  entry (map (map f) A) i j = option_map f (entry A i j).
Proof.
  unfold entry. rewrite nth_error_map.
  destruct (nth_error A i) as [row|]; simpl; [|reflexivity].
  apply nth_error_map.
Qed.

(** After [fillna(0)] no cell is NaN; a NaN cell has become 0 and every
    other cell is as it was. *)
Lemma entry_fillna (sim : DataFrame) (i j : nat) :
  entry (values (fillna 0 sim)) i j
  = option_map (fillna_cell 0) (entry (values sim) i j).
Proof. unfold fillna. simpl. apply entry_map. Qed.

Lemma entry_sim_frame (cos : vec -> vec -> float) (ids : list value)
  (centroids : list (option vec)) (i j : nat) (ci cj : option vec) :
  nth_error centroids i = Some ci -> nth_error centroids j = Some cj ->
  entry (values (sim_frame cos ids centroids)) i j
  = Some (raw_similarity cos ci cj).
Proof.
  intros Hi Hj. unfold entry, sim_frame. simpl.
  rewrite nth_error_map, Hi. simpl. now rewrite nth_error_map, Hj.
Qed.

(** C7: for every pair of texts of which at least one has no centroid
    (none of its tokens is in the vocabulary), whatever the measure applied
    to the centroids that exist, the entry of the array that the word2vec
    cell hands to the graph builder is exactly the number 0; and no entry of
    that array is NaN. *)
Theorem C7_missing_centroid_gives_zero
  (cos : vec -> vec -> float) (ids : list value)
  (centroids : list (option vec)) (i j : nat) (ci cj : option vec) :
  nth_error centroids i = Some ci -> nth_error centroids j = Some cj ->
  ci = None \/ cj = None ->
  entry (sim_matrix (sim_frame cos ids centroids)) i j = Some (Fin 0) /\
  TextRank.nx_graph_word2vec (sim_frame cos ids centroids)
  = TextRank.from_numpy_array (sim_matrix (sim_frame cos ids centroids)) /\
  forall (sim : DataFrame) (k l : nat), entry (sim_matrix sim) k l <> Some NaN.
Proof.
  intros Hi Hj Hnone. split; [|split].
  - unfold sim_matrix. rewrite entry_fillna, (@entry_sim_frame cos ids centroids i j ci cj Hi Hj).
    destruct Hnone as [-> | ->]; [reflexivity | destruct ci; reflexivity].
  - reflexivity.
  - intros sim k l. unfold sim_matrix. rewrite entry_fillna.
    destruct (entry (values sim) k l) as [c|]; simpl; [|discriminate].
    intros E. inversion E as [E']. now apply fillna_cell_not_nan in E'.
Qed.

Lemma C7_missing_centroid_gives_zero_witness :
  entry (sim_matrix (sim_frame cosine [PStr "a"; PStr "b"] [Some [1; 0]; None]))
    0 1 = Some (Fin 0).
Proof.
  destruct (@C7_missing_centroid_gives_zero cosine [PStr "a"; PStr "b"]
              [Some [1; 0]; None] 0%nat 1%nat (Some [1; 0]) None)
    as (H & _).
  - reflexivity.
  - reflexivity.
  - right. reflexivity.
  - exact H.
Defined.

Section Lookup.
Variable lookup : string -> option vec.

Lemma embedding_similarity_sym (a b : list string) :
  embedding_similarity lookup a b = embedding_similarity lookup b a.
Proof.
  unfold embedding_similarity. f_equal.
  apply raw_similarity_sym, cosine_sym.
Qed.

Lemma embedding_similarity_self (a : list string) :
  embedding_similarity lookup a a = Fin 0 \/
  embedding_similarity lookup a a = Fin 1.
Proof.
  unfold embedding_similarity.
  destruct (centroid lookup a) as [u|]; simpl; [|now left].
  destruct (cosine_self u) as [-> | ->]; [now left | now right].
Qed.

End Lookup.

(** C8: for all texts [a] and [b], under the overlap measure and under the
    embedding-centroid measure (for any table of pretrained vectors), the
    similarity of [a] and [b] equals that of [b] and [a], and the similarity
    of [a] with itself is a number, neither NaN nor infinite. *)
Theorem C8_symmetric_and_finite
  (lookup : string -> option vec) (a b : list string) :
  overlap_similarity a b = overlap_similarity b a /\
  embedding_similarity lookup a b = embedding_similarity lookup b a /\
  (exists x, overlap_similarity a a = Fin x) /\
  (exists y, embedding_similarity lookup a a = Fin y).
Proof.
  split; [apply overlap_similarity_sym|].
  split; [apply embedding_similarity_sym|].
  split.
  - destruct (le_lt_dec (List.length a) 1) as [H|H].
    + exists 0. apply overlap_similarity_degenerate. now left.
    + eexists. apply overlap_similarity_value; lia.
  - destruct (embedding_similarity_self lookup a) as [-> | ->]; eauto.
Qed.

End EmbeddingFacts.

(** ** From the similarity array to the graph *)

Section TextRankFacts.
Import Py Pd TextRank FrameExamples.

Lemma wjoins_same_pair (u v p q : nat) (e : nat * nat * float) (w : float) :
  wjoins u v e = true -> wjoins p q e = wjoins p q (u, v, w).
Proof.
  destruct e as [[a b] x]. unfold wjoins. simpl. intros H.
  apply orb_true_iff in H. rewrite !andb_true_iff, !Nat.eqb_eq in H.
  destruct H as [[-> ->]|[-> ->]]; [reflexivity|].
  destruct (Nat.eqb v p), (Nat.eqb u q), (Nat.eqb v q), (Nat.eqb u p);
    reflexivity.
Qed.

Lemma wjoins_swap (u v p q : nat) (w w' : float) :
  wjoins u v (p, q, w) = wjoins p q (u, v, w').
Proof.
  unfold wjoins. simpl.
  rewrite (Nat.eqb_sym p u), (Nat.eqb_sym q v), (Nat.eqb_sym p v),
    (Nat.eqb_sym q u).
  destruct (Nat.eqb u p), (Nat.eqb v q), (Nat.eqb v p), (Nat.eqb u q);
    reflexivity.
Qed.

Lemma find_set_edge_same (u v : nat) (w : float) (p q : nat)
  (es : list (nat * nat * float)) :
  wjoins p q (u, v, w) = true ->
  exists e, find (wjoins p q) (set_edge u v w es) = Some e /\ snd e = w.
Proof.
  intros H. induction es as [|e r IH]; simpl.
  - rewrite H. eauto.
  - destruct (wjoins u v e) eqn:E; simpl.
    + assert (E' : wjoins p q (fst e, w) = true).
      { rewrite <- H. rewrite <- (@wjoins_same_pair u v p q e w E).
        now destruct e as [[a b] x]. }
      rewrite E'. eauto.
    + destruct (wjoins p q e) eqn:E2; [|assumption].
      rewrite (@wjoins_same_pair p q u v e w E2) in E.
      rewrite (wjoins_swap u v p q w w) in E. congruence.
Qed.

Lemma find_set_edge_other (u v : nat) (w : float) (p q : nat)
  (es : list (nat * nat * float)) :
  wjoins p q (u, v, w) = false ->
  find (wjoins p q) (set_edge u v w es) = find (wjoins p q) es.
Proof.
  intros H. induction es as [|e r IH]; simpl.
  - now rewrite H.
  - destruct (wjoins u v e) eqn:E; simpl.
    + assert (E1 : wjoins p q e = false)
        by (now rewrite (@wjoins_same_pair u v p q e w E)).
      assert (E2 : wjoins p q (fst e, w) = false)
        by (rewrite <- E1; now destruct e as [[a b] x]).
      now rewrite E1, E2.
    + destruct (wjoins p q e); [reflexivity | assumption].
Qed.

(** After a run of [add_edge] calls the weight of an edge is the one all
    the calls for that pair of ends agree on. *)
Lemma fold_set_edge_weight (p q : nat) (w : float)
  (L : list (nat * nat * float)) :
  forall es : list (nat * nat * float),
    (forall t, In t L -> wjoins p q t = true -> snd t = w) ->
    (exists t, In t L /\ wjoins p q t = true) \/
    (exists e, find (wjoins p q) es = Some e /\ snd e = w) ->
    exists e,
      find (wjoins p q)
        (fold_left (fun es t => set_edge (fst (fst t)) (snd (fst t)) (snd t) es)
           L es) = Some e /\ snd e = w.
Proof.
  induction L as [|a L IH]; simpl; intros es Hall H.
  - destruct H as [(t & [] & _)|H]. assumption.
  - apply IH; [intros t Ht; apply Hall; now right|].
    destruct a as [[x y] z]. simpl.
    destruct (wjoins p q (x, y, z)) eqn:E.
    + right. rewrite <- (Hall (x, y, z) (or_introl eq_refl) E).
      now apply find_set_edge_same.
    + destruct H as [(t & [<-|Ht] & Hj)|H].
      * congruence.
      * left. eauto.
      * right. now rewrite find_set_edge_other.
Qed.

Lemma In_enum_row (u k : nat) (row : list float) (t : nat * nat * float) :
  In t (enum_row u k row) <->
  exists j x, nth_error row j = Some x /\ nonzero x = true /\ t = (u, (k + j)%nat, x).
Proof.
  revert k. induction row as [|x r IH]; simpl; intros k.
  - split; [intros [] | intros ([|j] & y & H & _); discriminate].
  - rewrite in_app_iff, IH. split.
    + intros [H|(j & y & Hn & Hz & ->)].
      * destruct (nonzero x) eqn:E; [|contradiction].
        destruct H as [<-|[]]. exists 0%nat, x. rewrite Nat.add_0_r. auto.
      * exists (S j), y. simpl. rewrite Nat.add_succ_r. auto.
    + intros ([|j] & y & Hn & Hz & ->); simpl in Hn.
      * inversion Hn; subst y. left. rewrite Hz, Nat.add_0_r. now left.
      * right. exists j, y. rewrite Nat.add_succ_r. auto.
Qed.

Lemma In_enum_rows (k : nat) (A : list (list float)) (t : nat * nat * float) :
  In t (enum_rows k A) <->
  exists i j row x,
    nth_error A i = Some row /\ nth_error row j = Some x /\
    nonzero x = true /\ t = ((k + i)%nat, j, x).
Proof.
  revert k. induction A as [|row A IH]; simpl; intros k.
  - split; [intros [] | intros ([|i] & j & r & x & H & _); discriminate].
  - rewrite in_app_iff, In_enum_row, IH. split.
    + intros [(j & x & Hn & Hz & ->)|(i & j & r & x & Hi & Hj & Hz & ->)].
      * exists 0%nat, j, row, x. rewrite Nat.add_0_r. auto.
      * exists (S i), j, r, x. simpl. rewrite Nat.add_succ_r. auto.
    + intros ([|i] & j & r & x & Hi & Hj & Hz & ->); simpl in Hi.
      * inversion Hi; subst r. left. exists j, x. rewrite Nat.add_0_r. auto.
      * right. exists i, j, r, x. rewrite Nat.add_succ_r. auto.
Qed.

(** Every nonzero diagonal entry of the array is a self-loop of the graph,
    with the entry as its weight. *)
Lemma from_numpy_array_self_loop (A : list (list float)) (G : WGraph)
  (i : nat) (w : float) :
  from_numpy_array A = Returned G ->
  entry A i i = Some w -> nonzero w = true ->
  edge_weight G i i = Some w.
Proof.
  unfold from_numpy_array. destruct (is_square A); [|discriminate].
  intros E Hw Hz. inversion E; subst G. clear E.
  unfold edge_weight. simpl.
  unfold entry in Hw. destruct (nth_error A i) as [row|] eqn:Hrow; [|discriminate].
  destruct (@fold_set_edge_weight i i w (enum_rows 0 A) []) as (e & -> & <-).
  - intros t Ht Hj. apply In_enum_rows in Ht.
    destruct Ht as (i' & j & r & x & Hi & Hjx & _ & ->).
    unfold wjoins in Hj. simpl in Hj. simpl.
    rewrite orb_diag, andb_true_iff, !Nat.eqb_eq in Hj.
    destruct Hj as [-> ->]. congruence.
  - left. exists (i, i, w). split.
    + apply In_enum_rows. exists i, i, row, w. auto.
    + unfold wjoins. simpl. now rewrite Nat.eqb_refl.
  - reflexivity.
Qed.

(** C9: the array of the similarity frame goes to the graph constructor as
    it is, diagonal included: for every proposition whose self-similarity
    entry is nonzero, the graph handed to PageRank has a self-loop at that
    node with that entry as weight, in the overlap pipeline and, the entry
    not being NaN, after [fillna(0)] in the word2vec pipeline as well. *)
Theorem C9_diagonal_becomes_self_loops
  (sim : DataFrame) (G : WGraph) (i : nat) (w : float) :
  entry (values sim) i i = Some w -> nonzero w = true ->
  nx_graph sim = Returned G ->
  nx_graph sim = from_numpy_array (values sim) /\
  edge_weight G i i = Some w /\
  (w <> NaN ->
   forall G', nx_graph_word2vec sim = Returned G' ->
              edge_weight G' i i = Some w).
Proof.
  intros Hw Hz HG. split; [reflexivity|]. split.
  - now apply from_numpy_array_self_loop with (A := values sim).
  - intros Hnan G' HG'. unfold nx_graph_word2vec, nx_graph in HG'.
    apply from_numpy_array_self_loop with (A := values (fillna 0 sim));
      [assumption | | assumption].
    rewrite entry_fillna, Hw. simpl. destruct w; [contradiction | |]; reflexivity.
Qed.

Lemma C9_diagonal_becomes_self_loops_witness :
  edge_weight (graph_of (values half_frame)) 0 0 = Some (Fin 1) /\
  edge_weight (graph_of (values (fillna 0 half_frame))) 0 0 = Some (Fin 1).
Proof.
  destruct (@C9_diagonal_becomes_self_loops half_frame
              (graph_of (values half_frame)) 0%nat (Fin 1))
    as (_ & H1 & H2).
  - reflexivity.
  - unfold nonzero. destruct (Req_dec_T 1 0) as [E|E]; [|reflexivity].
    exfalso. apply R1_neq_R0. exact E.
  - reflexivity.
  - split; [exact H1 | apply H2; [discriminate | reflexivity]].
Defined.

End TextRankFacts.

(** ** What the library raises reaches the caller *)

Section Propagation.
Import Py Nx Reference Pd TextRank.

(** The centrality cell has no [try]: when [nx.eigenvector_centrality]
    raises, for instance because the power iteration did not converge within
    the 500 iterations the cell allows, the cell ends with that exception and
    produces no scores. *)
Lemma sorted_scores_onGraph_raises
  (eigenvector_centrality : Graph -> nat -> R -> outcome (dict R))
  (d : dict (list value)) (e : exn) :
  eigenvector_centrality (sub_graph d) 500%nat (1 / 1000000)%R = Raised e ->
  sorted_scores_onGraph eigenvector_centrality d = Raised e.
Proof. intros H. unfold sorted_scores_onGraph. now rewrite H. Qed.

Lemma sorted_scores_raises
  (pagerank : WGraph -> outcome (list (nat * R))) (sim : DataFrame)
  (G : WGraph) (e : exn) :
  nx_graph sim = Returned G -> pagerank G = Raised e ->
  sorted_scores pagerank sim = Raised e.
Proof. intros HG H. unfold sorted_scores. now rewrite HG, H. Qed.

End Propagation.

(** ** The frame of propositions: [I_nodes] and its index *)

Section DictFacts.
Import Py Corpus.

Variable V : Type.

Lemma dict_get_dict_set (k k' : value) (v : V) (d : dict V) :
  dict_get k' (dict_set k v d) =
  if value_eqb k' k then Some v else dict_get k' d.
Proof.
  induction d as [|[k0 v0] r IH]; simpl.
  - reflexivity.
  - destruct (value_eqb k k0) eqn:E; simpl.
    + apply value_eqb_eq in E. subst k0.
      destruct (value_eqb k' k); reflexivity.
    + destruct (value_eqb k' k0) eqn:E0.
      * apply value_eqb_eq in E0. subst k0.
        destruct (value_eqb k' k) eqn:E1; [|reflexivity].
        apply value_eqb_eq in E1. subst k'.
        rewrite value_eqb_refl in E. discriminate.
      * assumption.
Qed.

Lemma dict_get_In (k : value) (v : V) (d : dict V) :
  dict_get k d = Some v -> In (k, v) d.
Proof.
  induction d as [|[k0 v0] r IH]; simpl; intros H.
  - discriminate.
  - destruct (value_eqb k k0) eqn:E.
    + apply value_eqb_eq in E. inversion H. subst. now left.
    + right. now apply IH.
Qed.

Lemma dict_get_keys (k : value) (d : dict V) :
  In k (keys d) <-> exists v, dict_get k d = Some v.
Proof.
  unfold keys. induction d as [|[k0 v0] r IH]; simpl.
  - split; [intros [] | intros (v & H); discriminate].
  - destruct (value_eqb k k0) eqn:E.
    + apply value_eqb_eq in E. subst k0. split; eauto.
    + apply value_eqb_neq in E. rewrite <- IH. split.
      * intros [H|H]; [congruence | assumption].
      * intros H. now right.
Qed.

Lemma In_dict_get (k : value) (v : V) (d : dict V) :
  NoDup (keys d) -> In (k, v) d -> dict_get k d = Some v.
Proof.
  unfold keys. induction d as [|[k0 v0] r IH]; simpl; intros Hnd H.
  - contradiction.
  - inversion Hnd as [|? ? Hn Hr]; subst.
    destruct H as [H|H].
    + inversion H; subst. now rewrite value_eqb_refl.
    + destruct (value_eqb k k0) eqn:E.
      * apply value_eqb_eq in E. subst k0. exfalso. apply Hn.
        apply in_map_iff. exists (k, v). now split.
      * now apply IH.
Qed.

Lemma find_app (A : Type) (f : A -> bool) (l1 l2 : list A) :
  find f (l1 ++ l2) =
  match find f l1 with
  | Some x => Some x
  | None => find f l2
  end.
Proof.
  induction l1 as [|x l1 IH]; simpl; [reflexivity|].
  destruct (f x); [reflexivity | assumption].
Qed.

(** A run of assignments [d[k] = v]: a lookup finds the value of the last
    assignment to its key, the keys are those assigned and no key is kept
    twice. *)
Lemma fold_dict_set_spec (items : list (value * V)) :
  forall d0 : dict V,
    let d := fold_left (fun d kv => dict_set (fst kv) (snd kv) d) items d0 in
    (forall k, dict_get k d =
       match find (fun kv => value_eqb k (fst kv)) (rev items) with
       | Some kv => Some (snd kv)
       | None => dict_get k d0
       end) /\
    (forall k, In k (keys d) <-> In k (map fst items) \/ In k (keys d0)) /\
    (NoDup (keys d0) -> NoDup (keys d)).
Proof.
  induction items as [|[k0 v0] items IH]; simpl; intros d0.
  - repeat split; tauto.
  - destruct (IH (dict_set k0 v0 d0)) as (Hget & Hkeys & Hnd). repeat split.
    + intros k. rewrite Hget, find_app. simpl.
      destruct (find (fun kv => value_eqb k (fst kv)) (rev items));
        [reflexivity|].
      rewrite dict_get_dict_set. now destruct (value_eqb k k0).
    + intros H. apply Hkeys in H. rewrite keys_dict_set in H. intuition.
    + intros H. apply Hkeys. rewrite keys_dict_set. intuition.
    + intros H. now apply Hnd, NoDup_keys_dict_set.
Qed.

End DictFacts.

Section INodesFacts.
Import Py Aif Corpus.
Open Scope string_scope.

Lemma I_nodes_fold_from (directory : list file) (acc : dict string) :
  fold_left I_nodes_file directory acc =
  fold_left (fun d kv => dict_set (fst kv) (snd kv) d) (I_items directory) acc.
Proof.
  unfold I_items, json_files. revert acc.
  induction directory as [|f fs IH]; simpl; intros acc.
  - reflexivity.
  - rewrite IH. unfold I_nodes_file.
    destruct (endswith (filename f) ".json"); simpl; [|reflexivity].
    rewrite fold_left_app. f_equal.
    revert acc. induction (nodes (json_data f)) as [|n ns IHn];
      simpl; intros acc; [reflexivity|].
    rewrite fold_left_app, IHn. f_equal.
    now destruct (String.eqb (type n) "I").
Qed.

Lemma I_nodes_as_fold (directory : list file) :
  I_nodes directory =
  fold_left (fun d kv => dict_set (fst kv) (snd kv) d) (I_items directory) [].
Proof. apply I_nodes_fold_from. Qed.

Lemma In_I_items (directory : list file) (id : value) (t : string) :
  In (id, t) (I_items directory) <->
  exists f n,
    In f directory /\ endswith (filename f) ".json" = true /\
    In n (nodes (json_data f)) /\ type n = "I" /\ nodeID n = id /\ text n = t.
Proof.
  unfold I_items, json_files. rewrite in_flat_map. split.
  - intros (f & Hf & H). apply filter_In in Hf. destruct Hf as (Hf & Hj).
    apply in_flat_map in H. destruct H as (n & Hn & H).
    destruct (String.eqb (type n) "I") eqn:E; [|contradiction].
    apply String.eqb_eq in E. destruct H as [H|[]]. inversion H; subst.
    exists f, n. tauto.
  - intros (f & n & Hf & Hj & Hn & Ht & <- & <-). exists f. split.
    + apply filter_In. tauto.
    + apply in_flat_map. exists n. split; [assumption|].
      rewrite Ht. simpl. now left.
Qed.

(** The index of [df] has no label twice and holds exactly the identifiers
    of the nodes of type "I" found in the ".json" files of the directory. *)
Theorem df_index_spec (directory : list file) (id : value) :
  NoDup (df_index directory) /\
  (In id (df_index directory) <->
   exists f n,
     In f directory /\ endswith (filename f) ".json" = true /\
     In n (nodes (json_data f)) /\ type n = "I" /\ nodeID n = id).
Proof.
  unfold df_index. rewrite I_nodes_as_fold.
  destruct (fold_dict_set_spec (I_items directory) []) as (_ & Hkeys & Hnd).
  split; [apply Hnd; constructor|].
  rewrite Hkeys. simpl. rewrite in_map_iff. split.
  - intros [([id' t] & E & H)|[]]. simpl in E. subst id'.
    apply In_I_items in H. destruct H as (f & n & H). exists f, n. tauto.
  - intros (f & n & Hf & Hj & Hn & Ht & Hid). left.
    exists (id, text n). split; [reflexivity|].
    apply In_I_items. exists f, n. tauto.
Qed.

(** When one identifier is carried by several "I" nodes, the frame keeps
    the text of the last of them in reading order; an identifier of no "I"
    node has no row. *)
Theorem I_nodes_last_text_wins (directory : list file) (id : value) :
  dict_get id (I_nodes directory) =
  match find (fun kv => value_eqb id (fst kv)) (rev (I_items directory)) with
  | Some kv => Some (snd kv)
  | None => None
  end.
Proof.
  rewrite I_nodes_as_fold.
  destruct (fold_dict_set_spec (I_items directory) []) as (Hget & _).
  now rewrite Hget.
Qed.

End INodesFacts.

(** ** The relation cell, node by node *)

Section RelationFacts.
Import Py Aif Corpus.
Open Scope string_scope.

Lemma dict_set_overwrite (V : Type) (k : value) (v v' : V) (d : dict V) :
  dict_set k v (dict_set k v' d) = dict_set k v d.
Proof.
  induction d as [|[k0 v0] r IH]; simpl.
  - now rewrite value_eqb_refl.
  - destruct (value_eqb k k0) eqn:E; simpl; rewrite E; [reflexivity|].
    now rewrite IH.
Qed.

(** The edge loop in closed form: the list grows by the sources of the
    current identifier, and the map is bound to the whole list as soon as
    there is one source. *)
Lemma scan_edges_closed (k : value) (es : list edge) :
  forall (acc : list value) (d : dict (list value)),
    scan_edges k es (acc, d) =
    let l := map fromID (filter (fun e => value_eqb (toID e) k) es) in
    ((acc ++ l)%list,
     match l with
     | [] => d
     | _ :: _ => dict_set k (acc ++ l)%list d
     end).
Proof.
  unfold scan_edges. induction es as [|e es IH]; simpl; intros acc d.
  - now rewrite app_nil_r.
  - destruct (value_eqb (toID e) k); simpl; [|apply IH].
    rewrite IH. simpl. rewrite <- app_assoc. simpl. f_equal.
    destruct (map fromID (filter (fun e0 => value_eqb (toID e0) k) es));
      [reflexivity|].
    apply dict_set_overwrite.
Qed.

Lemma visit_node_closed (data : json) (st : dict (list value) * value)
  (n : node) :
  let k := if is_relation n then nodeID n else snd st in
  visit_node data st n =
  (match sources k data with
   | [] => fst st
   | _ :: _ => dict_set k (sources k data) (fst st)
   end, k).
Proof.
  unfold visit_node, is_relation, sources. simpl.
  now rewrite scan_edges_closed.
Qed.

Lemma visit_node_run_ok (directory : list file) (f : file) (n : node)
  (st : dict (list value) * value) :
  In f directory -> endswith (filename f) ".json" = true ->
  In n (nodes (json_data f)) ->
  run_ok directory st -> run_ok directory (visit_node (json_data f) st n).
Proof.
  intros Hf Hj Hn (Hid & Hall). rewrite visit_node_closed.
  set (k := if is_relation n then nodeID n else snd st).
  assert (Hk : relation_id directory k).
  { unfold k. destruct (is_relation n) eqn:E; [|assumption].
    right. exists f, n. tauto. }
  split; [assumption|]. simpl. intros k' srcs Hin.
  destruct (sources k (json_data f)) as [|s l] eqn:Es; [now apply Hall|].
  apply In_dict_set in Hin. destruct Hin as [[-> ->]|Hin]; [|now apply Hall].
  split; [assumption|]. split; [discriminate|].
  exists f. rewrite Es. tauto.
Qed.

Lemma fold_visit_run_ok (directory : list file) :
  run_ok directory (fold_left visit_file directory ([], PInt 0)).
Proof.
  assert (H : forall fs st, incl fs directory -> run_ok directory st ->
            run_ok directory (fold_left visit_file fs st)).
  { induction fs as [|f fs IH]; simpl; intros st Hincl Hst; [assumption|].
    apply IH; [intros x Hx; apply Hincl; now right|].
    assert (Hf : In f directory) by (apply Hincl; now left).
    unfold visit_file.
    destruct (endswith (filename f) ".json") eqn:Hj; [|assumption].
    assert (Hn : forall ns st', incl ns (nodes (json_data f)) ->
              run_ok directory st' ->
              run_ok directory (fold_left (visit_node (json_data f)) ns st')).
    { induction ns as [|n ns IHn]; simpl; intros st' Hi Hst'; [assumption|].
      apply IHn; [intros x Hx; apply Hi; now right|].
      apply visit_node_run_ok; try assumption. apply Hi. now left. }
    apply Hn; [apply incl_refl | assumption]. }
  apply H; [apply incl_refl|].
  split; [now left | intros k srcs []].
Qed.

(** Every key of the relation map is the identifier of a "CA" or "RA" node
    of the corpus (or the 0 the variable [nodeID] starts with), and the list
    recorded for it is the complete list of the sources of the edges into it
    in one single document, in the order of that document: lists are never
    partial and never mix two documents. *)
Theorem interesting_nodes_entries (directory : list file)
  (k : value) (srcs : list value) :
  In (k, srcs) (interesting_nodes directory) ->
  relation_id directory k /\ srcs <> [] /\
  exists f, In f directory /\ endswith (filename f) ".json" = true /\
            srcs = sources k (json_data f).
Proof.
  intros H. destruct (fold_visit_run_ok directory) as (_ & Hall).
  now apply Hall.
Qed.

Lemma interesting_nodes_entries_witness :
  relation_id Examples.two_premises (PStr "R") /\
  exists f, In f Examples.two_premises /\
            [PStr "A"; PStr "B"] = sources (PStr "R") (json_data f).
Proof.
  destruct (@interesting_nodes_entries Examples.two_premises (PStr "R")
              [PStr "A"; PStr "B"]) as (H1 & _ & f & H2 & _ & H3).
  - left. reflexivity.
  - split; [exact H1 | exists f; split; assumption].
Defined.

(** Keys are never removed while reading. *)
Lemma visit_node_keys_mono (data : json) (st : dict (list value) * value)
  (n : node) (k : value) :
  In k (keys (fst st)) -> In k (keys (fst (visit_node data st n))).
Proof.
  intros H. rewrite visit_node_closed. simpl.
  destruct (sources _ data); [assumption|].
  apply keys_dict_set. now right.
Qed.

Lemma fold_visit_node_keys_mono (data : json) (ns : list node) (k : value) :
  forall st, In k (keys (fst st)) ->
             In k (keys (fst (fold_left (visit_node data) ns st))).
Proof.
  induction ns as [|n ns IH]; simpl; intros st H; [assumption|].
  now apply IH, visit_node_keys_mono.
Qed.

Lemma visit_file_keys_mono (f : file) (st : dict (list value) * value)
  (k : value) :
  In k (keys (fst st)) -> In k (keys (fst (visit_file st f))).
Proof.
  intros H. unfold visit_file.
  destruct (endswith (filename f) ".json"); [|assumption].
  now apply fold_visit_node_keys_mono.
Qed.

Lemma fold_visit_file_keys_mono (fs : list file) (k : value) :
  forall st, In k (keys (fst st)) ->
             In k (keys (fst (fold_left visit_file fs st))).
Proof.
  induction fs as [|f fs IH]; simpl; intros st H; [assumption|].
  now apply IH, visit_file_keys_mono.
Qed.

Lemma relation_node_recorded (directory : list file)
  (f : file) (n : node) :
  In f directory -> endswith (filename f) ".json" = true ->
  In n (nodes (json_data f)) -> is_relation n = true ->
  sources (nodeID n) (json_data f) <> [] ->
  In (nodeID n) (keys (interesting_nodes directory)).
Proof.
  intros Hf Hj Hn Hrel Hsrc. unfold interesting_nodes.
  generalize (@nil (value * list value), PInt 0).
  induction directory as [|f0 fs IH]; simpl; intros st; [contradiction|].
  destruct Hf as [->|Hf]; [|now apply IH].
  apply fold_visit_file_keys_mono. unfold visit_file. rewrite Hj.
  clear IH. revert st.
  induction (nodes (json_data f)) as [|n0 ns IHn]; simpl; intros st;
    [contradiction|].
  destruct Hn as [->|Hn]; [|now apply IHn].
  apply fold_visit_node_keys_mono. rewrite visit_node_closed. simpl.
  rewrite Hrel.
  destruct (sources (nodeID n) (json_data f)) eqn:E; [contradiction|].
  apply keys_dict_set. now left.
Qed.

(** No relation node is missed: a "CA" or "RA" node of a ".json" file with
    at least one edge pointing to it in that file is a key of the relation
    map. *)
Theorem relation_node_with_source_is_recorded (directory : list file)
  (f : file) (n : node) :
  In f directory -> endswith (filename f) ".json" = true ->
  In n (nodes (json_data f)) -> is_relation n = true ->
  sources (nodeID n) (json_data f) <> [] ->
  In (nodeID n) (keys (interesting_nodes directory)).
Proof. apply relation_node_recorded. Qed.

Lemma relation_node_with_source_is_recorded_witness :
  In (PStr "R1") (keys (interesting_nodes Examples.undercut)).
Proof.
  apply (@relation_node_with_source_is_recorded Examples.undercut
           {| filename := "nodeset2.json"; json_data := Examples.undercut_json |}
           {| type := "RA"; nodeID := PStr "R1"; text := "Default Inference" |}).
  - left. reflexivity.
  - reflexivity.
  - right. right. left. reflexivity.
  - reflexivity.
  - discriminate.
Defined.

(** On a corpus of one nodeset the relation map holds, for every "CA" or
    "RA" node that has an incoming edge, the complete list of the sources of
    those edges, in the order of the document. *)
Theorem single_nodeset_records_all_sources (f : file) (n : node) :
  endswith (filename f) ".json" = true ->
  In n (nodes (json_data f)) -> is_relation n = true ->
  sources (nodeID n) (json_data f) <> [] ->
  dict_get (nodeID n) (interesting_nodes [f])
  = Some (sources (nodeID n) (json_data f)).
Proof.
  intros Hj Hn Hrel Hsrc.
  assert (Hk : In (nodeID n) (keys (interesting_nodes [f]))).
  { apply relation_node_recorded with (f := f); try assumption. now left. }
  apply in_keys_entry in Hk. destruct Hk as (srcs & Hin).
  destruct (fold_visit_run_ok [f]) as (_ & Hall).
  destruct (Hall _ _ Hin) as (_ & _ & f' & [<-|[]] & _ & E).
  destruct (interesting_nodes_ok [f]) as (Hnd & _).
  rewrite (In_dict_get _ _ _ Hnd Hin). now rewrite E.
Qed.

Lemma single_nodeset_records_all_sources_witness :
  dict_get (PStr "R") (interesting_nodes Examples.two_premises)
  = Some [PStr "A"; PStr "B"].
Proof.
  apply (@single_nodeset_records_all_sources
           {| filename := "nodeset1.json";
              json_data :=
                {| nodes :=
                     [ {| type := "I"; nodeID := PStr "A"; text := "carson want a flat tax" |};
                       {| type := "I"; nodeID := PStr "B"; text := "carson wants two flat taxes" |};
                       {| type := "I"; nodeID := PStr "C"; text := "the sky is blue" |};
                       {| type := "RA"; nodeID := PStr "R"; text := "Default Inference" |} ];
                   edges :=
                     [ {| fromID := PStr "A"; toID := PStr "R" |};
                       {| fromID := PStr "B"; toID := PStr "R" |};
                       {| fromID := PStr "R"; toID := PStr "C" |} ] |} |}
           {| type := "RA"; nodeID := PStr "R"; text := "Default Inference" |}).
  - reflexivity.
  - right. right. right. left. reflexivity.
  - reflexivity.
  - discriminate.
Defined.

(** Names that do not end in ".json" are skipped by both reading cells:
    the frame of propositions and the relation map are those of the ".json"
    files alone. *)
Theorem other_files_are_skipped (directory : list file) :
  I_nodes directory = I_nodes (json_files directory) /\
  interesting_nodes directory = interesting_nodes (json_files directory).
Proof.
  split.
  - rewrite !I_nodes_as_fold. unfold I_items, json_files.
    f_equal. f_equal. induction directory as [|f fs IH]; simpl; [reflexivity|].
    destruct (endswith (filename f) ".json") eqn:E; simpl;
      [rewrite E; now f_equal | assumption].
  - unfold interesting_nodes, json_files. f_equal.
    generalize (@nil (value * list value), PInt 0).
    induction directory as [|f fs IH]; simpl; intros st; [reflexivity|].
    unfold visit_file at 2.
    destruct (endswith (filename f) ".json") eqn:E; simpl.
    + rewrite IH. unfold visit_file at 3. now rewrite E.
    + apply IH.
Qed.

End RelationFacts.

(** ** The reference graph and its scores *)

Section ScoreFacts.
Import Py Aif Nx Reference Corpus.
Open Scope string_scope.

(** The reference graph lists no node twice and has no isolated node: a
    recorded key is adjacent to its sources and a source to its key. *)
Theorem reference_graph_has_no_isolated_node (directory : list file)
  (n : value) :
  let G := sub_graph (interesting_nodes directory) in
  In n (g_nodes G) ->
  NoDup (g_nodes G) /\ exists m, In m (g_nodes G) /\ has_edge G n m = true.
Proof.
  intros G Hn. split; [apply sub_graph_NoDup|].
  apply sub_graph_nodes in Hn. destruct Hn as (k & srcs & Hin & Hn).
  destruct (interesting_nodes_ok directory) as (_ & Hall).
  destruct (Hall k srcs Hin) as (Hne & _).
  destruct Hn as [->|Hn].
  - destruct srcs as [|s srcs]; [contradiction|]. exists s. split.
    + apply sub_graph_nodes. exists k, (s :: srcs). simpl. tauto.
    + apply sub_graph_has_edge. exists k, (s :: srcs). simpl. tauto.
  - exists k. split.
    + apply sub_graph_nodes. exists k, srcs. tauto.
    + apply sub_graph_has_edge. exists k, srcs. tauto.
Qed.

Lemma reference_graph_has_no_isolated_node_witness :
  exists m,
    has_edge (sub_graph (interesting_nodes Examples.undercut)) (PStr "R2") m
    = true.
Proof.
  destruct (@reference_graph_has_no_isolated_node Examples.undercut (PStr "R2"))
    as (_ & m & _ & H).
  - right. right. left. reflexivity.
  - exists m. exact H.
Defined.

Variable V : Type.

Lemma dict_del_entries (k : value) (d d' : dict V) :
  NoDup (keys d) -> dict_del k d = Some d' ->
  forall x s, In (x, s) d' <-> In (x, s) d /\ x <> k.
Proof.
  unfold keys. revert d'.
  induction d as [|[k0 v0] r IH]; simpl; intros d' Hnd Hdel x s.
  - discriminate.
  - inversion Hnd as [|? ? Hn Hr]; subst.
    destruct (value_eqb k k0) eqn:E.
    + apply value_eqb_eq in E. subst k0. inversion Hdel; subst d'. split.
      * intros H. split; [now right|]. intros ->. apply Hn.
        apply in_map_iff. exists (k, s). now split.
      * intros [[H|H] Hne]; [inversion H; congruence | assumption].
    + destruct (dict_del k r) as [r'|] eqn:Er; [|discriminate].
      inversion Hdel; subst d'. simpl. rewrite (IH r' Hr eq_refl).
      apply value_eqb_neq in E. split.
      * intros [H|[H Hne]]; [inversion H; subst; split; [now left | congruence]
                            | tauto].
      * intros [[H|H] Hne]; [now left | right; tauto].
Qed.

Lemma delete_relation_nodes_entries (d : dict (list value)) :
  NoDup (keys d) ->
  forall c : dict V,
    NoDup (keys c) ->
    (forall k, In k (keys d) -> In k (keys c)) ->
    exists c',
      delete_relation_nodes d c = Some c' /\ NoDup (keys c') /\
      forall x s, In (x, s) c' <-> In (x, s) c /\ ~ In x (keys d).
Proof.
  unfold delete_relation_nodes.
  induction d as [|[k srcs] r IH]; simpl; intros Hd c Hc Hsub.
  - exists c. repeat split; tauto.
  - inversion Hd as [|? ? Hk Hr]; subst.
    destruct (dict_del_present k c (Hsub k (or_introl eq_refl))) as (c1 & E1).
    rewrite E1.
    destruct (dict_del_keys k c Hc E1) as (Hc1 & Hiff1).
    pose proof (dict_del_entries k c Hc E1) as Hent1.
    destruct (IH Hr c1 Hc1) as (c' & E' & Hc' & Hiff').
    { intros x Hx. apply Hiff1. split; [apply Hsub; now right|].
      intros ->. contradiction. }
    exists c'. split; [assumption|]. split; [assumption|].
    intros x s. rewrite Hiff', Hent1. intuition congruence.
Qed.

(** A key the centrality does not hold stops the deletion loop with a
    [KeyError]. *)
Lemma delete_relation_nodes_missing (d : dict (list value)) :
  forall c : dict V,
    NoDup (keys c) ->
    (exists k, In k (keys d) /\ ~ In k (keys c)) ->
    delete_relation_nodes d c = None.
Proof.
  unfold delete_relation_nodes.
  assert (Hnone : forall l : dict (list value),
            fold_left
              (fun (c : option (dict V)) (item : value * list value) =>
                 match c with
                 | Some c' => dict_del (fst item) c'
                 | None => None
                 end) l None = None).
  { induction l as [|a l IHl]; simpl; [reflexivity | assumption]. }
  induction d as [|[k srcs] r IH]; simpl; intros c Hc (k0 & Hk0 & Hmiss).
  - contradiction.
  - destruct (dict_del k c) as [c1|] eqn:E1; [|apply Hnone].
    destruct (dict_del_keys k c Hc E1) as (Hc1 & Hiff1).
    apply IH; [assumption|].
    destruct Hk0 as [<-|Hk0].
    + exfalso. apply Hmiss.
      destruct (in_dec value_eq_dec k (keys c)) as [Hin|Hin]; [assumption|].
      apply dict_del_missing in Hin. congruence.
    + exists k0. split; [assumption|]. intros Hin. apply Hiff1 in Hin. tauto.
Qed.

End ScoreFacts.

Section CentralityCell.
Import Py Aif Nx Reference Corpus.
Open Scope string_scope.

Lemma centrality_cell_entries
  (directory : list file)
  (eigenvector_centrality : Graph -> nat -> R -> outcome (dict R))
  (centrality : dict R) :
  let d := interesting_nodes directory in
  eigenvector_centrality (sub_graph d) 500%nat (1 / 1000000)%R
  = Returned centrality ->
  keys centrality = g_nodes (sub_graph d) ->
  exists scores,
    sorted_scores_onGraph eigenvector_centrality d = Returned scores /\
    (forall x s, In (x, s) scores <-> In (x, s) centrality /\ ~ In x (keys d)) /\
    NoDup (map fst scores) /\
    StronglySorted (fun p q => (snd q <= snd p)%R) scores.
Proof.
  intros d Hrun Hkeys.
  destruct (interesting_nodes_ok directory) as (Hnd & _). fold d in Hnd.
  destruct (@delete_relation_nodes_entries R d Hnd centrality)
    as (c' & Hdel & Hnd' & Hiff).
  - rewrite Hkeys. apply sub_graph_NoDup.
  - intros k Hk. rewrite Hkeys. apply sub_graph_nodes.
    apply in_keys_entry in Hk. destruct Hk as (l & Hl). eauto.
  - exists (sorted_desc Rltb c'). unfold sorted_scores_onGraph.
    fold d. rewrite Hrun, Hdel. split; [reflexivity|].
    pose proof (sorted_desc_perm Rltb c') as Hperm.
    split; [|split].
    + intros x s. rewrite <- Hiff. split; apply Permutation_in;
        [assumption | now apply Permutation_sym].
    + apply (Permutation_NoDup (l := keys c')); [|assumption].
      apply Permutation_map, Permutation_sym, Hperm.
    + apply sorted_scores_descending.
Qed.

(** When the library returns a centrality keyed by the nodes of the
    reference graph, the centrality cell returns the library's own pairs
    (node, score) of the nodes that are not recorded keys, scores untouched,
    each node once, in descending order of score. *)
Theorem sorted_scores_onGraph_entries
  (directory : list file)
  (eigenvector_centrality : Graph -> nat -> R -> outcome (dict R))
  (centrality : dict R) :
  let d := interesting_nodes directory in
  eigenvector_centrality (sub_graph d) 500%nat (1 / 1000000)%R
  = Returned centrality ->
  keys centrality = g_nodes (sub_graph d) ->
  exists scores,
    sorted_scores_onGraph eigenvector_centrality d = Returned scores /\
    (forall x s, In (x, s) scores <-> In (x, s) centrality /\ ~ In x (keys d)) /\
    NoDup (map fst scores) /\
    StronglySorted (fun p q => (snd q <= snd p)%R) scores.
Proof. apply centrality_cell_entries. Qed.

Lemma sorted_scores_onGraph_entries_witness :
  exists scores,
    sorted_scores_onGraph Examples.unit_scores
      (interesting_nodes Examples.undercut) = Returned scores /\
    NoDup (map fst scores).
Proof.
  destruct (@sorted_scores_onGraph_entries Examples.undercut
              Examples.unit_scores
              [(PStr "R1", 1%R); (PStr "P", 1%R); (PStr "R2", 1%R)])
    as (scores & H1 & _ & H2 & _).
  - reflexivity.
  - reflexivity.
  - exists scores. split; assumption.
Defined.

(** A centrality that lacks one of the recorded keys makes the cell end
    with a [KeyError]: the deletion loop does not skip missing keys. *)
Theorem sorted_scores_onGraph_key_error
  (eigenvector_centrality : Graph -> nat -> R -> outcome (dict R))
  (d : dict (list value)) (centrality : dict R) (k : value) :
  eigenvector_centrality (sub_graph d) 500%nat (1 / 1000000)%R
  = Returned centrality ->
  NoDup (keys centrality) -> In k (keys d) -> ~ In k (keys centrality) ->
  sorted_scores_onGraph eigenvector_centrality d = Raised KeyError.
Proof.
  intros Hrun Hnd Hk Hmiss. unfold sorted_scores_onGraph. rewrite Hrun.
  rewrite (@delete_relation_nodes_missing R d centrality Hnd); [reflexivity|].
  exists k. tauto.
Qed.

Lemma sorted_scores_onGraph_key_error_witness :
  sorted_scores_onGraph (fun _ _ _ => Returned [(PStr "P", 1%R)])
    (interesting_nodes Examples.undercut) = Raised KeyError.
Proof.
  apply (@sorted_scores_onGraph_key_error
           (fun _ _ _ => Returned [(PStr "P", 1%R)])
           (interesting_nodes Examples.undercut) [(PStr "P", 1%R)]
           (PStr "R1")).
  - reflexivity.
  - constructor; [intros [] | constructor].
  - left. reflexivity.
  - intros [H|[]]. discriminate.
Defined.

(** A proposition that is never the source of an edge of the corpus, a
    conclusion that is no premise for instance, is not in the reference
    ranking: its row of the frame gets the rank 1173. *)
Theorem never_a_source_gets_1173
  (directory : list file)
  (eigenvector_centrality : Graph -> nat -> R -> outcome (dict R))
  (centrality : dict R) (scores : list (value * R))
  (index : list value) (i : nat) (p : value) :
  let d := interesting_nodes directory in
  eigenvector_centrality (sub_graph d) 500%nat (1 / 1000000)%R
  = Returned centrality ->
  keys centrality = g_nodes (sub_graph d) ->
  sorted_scores_onGraph eigenvector_centrality d = Returned scores ->
  (forall f e, In f directory -> In e (edges (json_data f)) -> fromID e <> p) ->
  nth_error index i = Some p ->
  nth_error (centrality_rankings scores index) i = Some 1173%nat.
Proof.
  intros d Hrun Hkeys Hcell Hsrc Hi.
  destruct (@centrality_cell_entries directory eigenvector_centrality
              centrality Hrun Hkeys) as (scores' & Hcell' & Hent & _).
  fold d in Hcell'. rewrite Hcell in Hcell'. inversion Hcell'; subst scores'.
  unfold centrality_rankings, rankings. rewrite nth_error_map, Hi. simpl.
  f_equal. unfold rank_of.
  destruct (list_index p (map fst scores)) as [k|] eqn:E; [|reflexivity].
  exfalso. destruct (list_index_present p (map fst scores) E) as (_ & Hnth & _).
  apply nth_error_In, in_map_iff in Hnth.
  destruct Hnth as ([x s] & Ex & Hin). simpl in Ex. subst x.
  apply Hent in Hin. destruct Hin as (Hin & Hnk).
  assert (Hg : In p (g_nodes (sub_graph d))).
  { rewrite <- Hkeys. apply in_keys_entry. eauto. }
  apply sub_graph_nodes in Hg. destruct Hg as (k' & srcs & Hks & [->|Hp]).
  - apply Hnk, in_keys_entry. eauto.
  - destruct (interesting_nodes_ok directory) as (_ & Hall).
    destruct (Hall k' srcs Hks) as (_ & Hfeeds).
    destruct (Hfeeds p Hp) as (f & e & Hf & _ & He & Hfrom & _).
    exact (Hsrc f e Hf He Hfrom).
Qed.

Lemma never_a_source_gets_1173_witness :
  nth_error
    (centrality_rankings [(PStr "A", 1%R); (PStr "B", 1%R)]
       (df_index Examples.two_premises)) 2 = Some 1173%nat.
Proof.
  apply (@never_a_source_gets_1173 Examples.two_premises
           (fun _ _ _ =>
              Returned [(PStr "R", 1%R); (PStr "A", 1%R); (PStr "B", 1%R)])
           [(PStr "R", 1%R); (PStr "A", 1%R); (PStr "B", 1%R)]
           [(PStr "A", 1%R); (PStr "B", 1%R)]
           (df_index Examples.two_premises) 2%nat (PStr "C")).
  - reflexivity.
  - reflexivity.
  - unfold sorted_scores_onGraph.
    change (delete_relation_nodes (interesting_nodes Examples.two_premises)
              [(PStr "R", 1%R); (PStr "A", 1%R); (PStr "B", 1%R)])
      with (Some [(PStr "A", 1%R); (PStr "B", 1%R)]).
    f_equal. unfold sorted_desc. simpl. unfold Rltb.
    destruct (Rlt_dec 1 1) as [H|H]; [exfalso; lra | reflexivity].
  - intros f e [<-|[]] [<-|[<-|[<-|[]]]]; discriminate.
  - reflexivity.
Defined.

(** A recorded source that is not itself a recorded key is in the reference
    ranking: its rank is a position of the ranking, the one it stands at. *)
Theorem recorded_source_is_ranked
  (directory : list file)
  (eigenvector_centrality : Graph -> nat -> R -> outcome (dict R))
  (centrality : dict R) (scores : list (value * R))
  (key : value) (srcs : list value) (p : value) :
  let d := interesting_nodes directory in
  eigenvector_centrality (sub_graph d) 500%nat (1 / 1000000)%R
  = Returned centrality ->
  keys centrality = g_nodes (sub_graph d) ->
  sorted_scores_onGraph eigenvector_centrality d = Returned scores ->
  In (key, srcs) d -> In p srcs -> ~ In p (keys d) ->
  (rank_of (map fst scores) p < List.length scores)%nat /\
  nth_error (map fst scores) (rank_of (map fst scores) p) = Some p.
Proof.
  intros d Hrun Hkeys Hcell Hkey Hp Hnk.
  destruct (@centrality_cell_entries directory eigenvector_centrality
              centrality Hrun Hkeys) as (scores' & Hcell' & Hent & _).
  fold d in Hcell'. rewrite Hcell in Hcell'. inversion Hcell'; subst scores'.
  assert (Hg : In p (keys centrality)).
  { rewrite Hkeys. apply sub_graph_nodes. exists key, srcs. tauto. }
  apply in_keys_entry in Hg. destruct Hg as (s & Hs).
  assert (Hin : In p (map fst scores)).
  { apply in_map_iff. exists (p, s). split; [reflexivity|].
    apply Hent. tauto. }
  unfold rank_of.
  destruct (list_index p (map fst scores)) as [k|] eqn:E.
  - destruct (list_index_present p (map fst scores) E) as (Hlt & Hnth & _).
    rewrite length_map in Hlt. tauto.
  - apply list_index_absent in E. contradiction.
Qed.

Lemma recorded_source_is_ranked_witness :
  (rank_of (map fst [(PStr "A", 1%R); (PStr "B", 1%R)]) (PStr "B") < 2)%nat.
Proof.
  destruct (@recorded_source_is_ranked Examples.two_premises
              (fun _ _ _ =>
                 Returned [(PStr "R", 1%R); (PStr "A", 1%R); (PStr "B", 1%R)])
              [(PStr "R", 1%R); (PStr "A", 1%R); (PStr "B", 1%R)]
              [(PStr "A", 1%R); (PStr "B", 1%R)]
              (PStr "R") [PStr "A"; PStr "B"] (PStr "B")) as (H & _).
  - reflexivity.
  - reflexivity.
  - unfold sorted_scores_onGraph.
    change (delete_relation_nodes (interesting_nodes Examples.two_premises)
              [(PStr "R", 1%R); (PStr "A", 1%R); (PStr "B", 1%R)])
      with (Some [(PStr "A", 1%R); (PStr "B", 1%R)]).
    f_equal. unfold sorted_desc. simpl. unfold Rltb.
    destruct (Rlt_dec 1 1) as [H|H]; [exfalso; lra | reflexivity].
  - left. reflexivity.
  - right. left. reflexivity.
  - intros [H|[]]. discriminate.
  - exact H.
Defined.

End CentralityCell.

(** ** The rank aligner on a full ranking *)

Section AlignerFacts.
Import Py Reference.

Lemma rank_of_cons_tail (x y : value) (r : list value) :
  x <> y -> In y r -> rank_of (x :: r) y = S (rank_of r y).
Proof.
  intros Hne Hin. unfold rank_of. simpl.
  apply value_eqb_neq in Hne. rewrite Hne.
  destruct (list_index y r) as [k|] eqn:E; [reflexivity|].
  apply list_index_absent in E. contradiction.
Qed.

Lemma rankings_self (l : list value) :
  NoDup l -> rankings l l = seq 0 (List.length l).
Proof.
  unfold rankings. induction l as [|x r IH]; simpl; intros Hnd.
  - reflexivity.
  - inversion Hnd as [|? ? Hx Hr]; subst.
    f_equal; [unfold rank_of; simpl; now rewrite value_eqb_refl|].
    rewrite <- seq_shift, <- (IH Hr), map_map.
    apply map_ext_in. intros y Hy. apply rank_of_cons_tail; [|assumption].
    intros ->. contradiction.
Qed.

(** Rank and position are inverse to each other on a ranking without
    repeated entry: the entry at position [k] gets rank [k], and two entries
    of the ranking never share a rank. *)
Theorem rank_of_position (ranking : list value) (k : nat) (x y : value) :
  NoDup ranking -> nth_error ranking k = Some x -> In y ranking ->
  rank_of ranking x = k /\
  (rank_of ranking x = rank_of ranking y -> x = y).
Proof.
  intros Hnd Hk Hy.
  assert (Hpos : forall z, In z ranking ->
            nth_error ranking (rank_of ranking z) = Some z).
  { intros z Hz. unfold rank_of.
    destruct (list_index z ranking) as [j|] eqn:E.
    - now destruct (list_index_present z ranking E) as (_ & H & _).
    - apply list_index_absent in E. contradiction. }
  split.
  - assert (Hx := Hpos x (nth_error_In _ _ Hk)).
    apply (proj1 (NoDup_nth_error ranking) Hnd); [|congruence].
    apply nth_error_Some. congruence.
  - intros E. assert (Hx := Hpos x (nth_error_In _ _ Hk)).
    assert (Hy' := Hpos y Hy). congruence.
Qed.

Lemma rank_of_position_witness :
  rank_of [PStr "a"; PStr "b"] (PStr "b") = 1%nat.
Proof.
  destruct (@rank_of_position [PStr "a"; PStr "b"] 1%nat (PStr "b") (PStr "a"))
    as (H & _).
  - repeat constructor; simpl; intuition discriminate.
  - reflexivity.
  - left. reflexivity.
  - exact H.
Defined.

Lemma rankings_perm (ranking index : list value) :
  NoDup ranking -> Permutation index ranking ->
  Permutation (rankings ranking index) (seq 0 (List.length ranking)) /\
  forall row0, In row0 index -> list_index row0 ranking <> None.
Proof.
  intros Hnd Hperm. split.
  - rewrite <- (rankings_self Hnd). unfold rankings.
    now apply Permutation_map.
  - intros row0 Hin E. apply list_index_absent in E. apply E.
    now apply (Permutation_in _ Hperm).
Qed.

(** When the ranking holds every row label of the frame exactly once, the
    column of ranks is a rearrangement of [0 .. n-1]: every proposition gets
    a rank of its own and the [except] branch is never taken. *)
Theorem rankings_of_full_ranking (ranking index : list value) :
  NoDup ranking -> Permutation index ranking ->
  Permutation (rankings ranking index) (seq 0 (List.length ranking)) /\
  forall row0, In row0 index -> list_index row0 ranking <> None.
Proof. apply rankings_perm. Qed.

Lemma rankings_of_full_ranking_witness :
  Permutation (rankings [PStr "b"; PStr "a"] [PStr "a"; PStr "b"])
    (seq 0 2).
Proof.
  destruct (@rankings_of_full_ranking [PStr "b"; PStr "a"]
              [PStr "a"; PStr "b"]) as (H & _).
  - repeat constructor; simpl; intuition discriminate.
  - apply perm_swap.
  - exact H.
Defined.

Lemma labels_of_in_range (sim_index : list value)
  (sorted_scores : list (nat * R)) :
  Forall (fun item => (fst item < List.length sim_index)%nat) sorted_scores ->
  labels_of sim_index sorted_scores =
  Returned (map (fun item => nth (fst item) sim_index (PInt 0)) sorted_scores).
Proof.
  induction sorted_scores as [|[node s] r IH]; simpl; intros H.
  - reflexivity.
  - inversion H as [|? ? Hn Hr]; subst. simpl in Hn.
    destruct (nth_error sim_index node) as [label|] eqn:E.
    + rewrite (IH Hr). f_equal. f_equal. symmetry.
      now apply nth_error_nth.
    + apply nth_error_None in E. lia.
Qed.

Lemma labels_of_out_of_range (sim_index : list value)
  (sorted_scores : list (nat * R)) :
  Exists (fun item => (List.length sim_index <= fst item)%nat) sorted_scores ->
  labels_of sim_index sorted_scores = Raised IndexError.
Proof.
  induction sorted_scores as [|[node s] r IH]; simpl; intros H.
  - inversion H.
  - destruct (nth_error sim_index node) as [label|] eqn:E; [|reflexivity].
    inversion H as [? ? Hn|? ? Hr]; subst.
    + simpl in Hn. apply nth_error_None in Hn. congruence.
    + now rewrite (IH Hr).
Qed.

Lemma nth_seq_all (l : list value) :
  map (fun k => nth k l (PInt 0)) (seq 0 (List.length l)) = l.
Proof.
  induction l as [|x r IH]; simpl; [reflexivity|].
  f_equal. rewrite <- seq_shift, map_map. exact IH.
Qed.

(** The aligner of the two TextRank pipelines: a node number beyond the
    labels of [sim] ends the cell with an [IndexError]. *)
Theorem common_words_rankings_index_error (sim_index : list value)
  (sorted_scores : list (nat * R)) (index : list value) :
  Exists (fun item => (List.length sim_index <= fst item)%nat) sorted_scores ->
  common_words_rankings sim_index sorted_scores index = Raised IndexError.
Proof.
  intros H. unfold common_words_rankings.
  now rewrite labels_of_out_of_range.
Qed.

Lemma common_words_rankings_index_error_witness :
  common_words_rankings [PStr "a"] [(0%nat, 1%R); (1%nat, 1%R)] [PStr "a"]
  = Raised IndexError.
Proof.
  apply (@common_words_rankings_index_error [PStr "a"]
           [(0%nat, 1%R); (1%nat, 1%R)] [PStr "a"]).
  apply Exists_cons_tl, Exists_cons_hd. simpl. lia.
Defined.

(** The aligner of the two TextRank pipelines on a complete run: when the
    scores cover each node [0 .. n-1] once, [sim] has [n] distinct labels and
    the frame has the same labels, the cell raises nothing and the column of
    ranks is a rearrangement of [0 .. n-1], so no row gets the rank of the
    [except] branch in its place. *)
Theorem common_words_rankings_complete (sim_index : list value)
  (sorted_scores : list (nat * R)) (index : list value) :
  NoDup sim_index ->
  Permutation (map fst sorted_scores) (seq 0 (List.length sim_index)) ->
  Permutation index sim_index ->
  exists column,
    common_words_rankings sim_index sorted_scores index = Returned column /\
    Permutation column (seq 0 (List.length sim_index)).
Proof.
  intros Hnd Hnodes Hindex. unfold common_words_rankings.
  rewrite labels_of_in_range.
  - eexists. split; [reflexivity|].
    set (list_cw := map (fun item => nth (fst item) sim_index (PInt 0))
                      sorted_scores).
    assert (Hcw : Permutation list_cw sim_index).
    { unfold list_cw.
      apply perm_trans
        with (map (fun k => nth k sim_index (PInt 0))
                (seq 0 (List.length sim_index)));
        [|rewrite nth_seq_all; apply Permutation_refl].
      rewrite <- (map_map fst (fun k => nth k sim_index (PInt 0))).
      now apply Permutation_map. }
    assert (Hlen : List.length sim_index = List.length list_cw)
      by (symmetry; now apply Permutation_length).
    rewrite Hlen. apply rankings_perm.
    + apply (Permutation_NoDup (Permutation_sym Hcw) Hnd).
    + eapply perm_trans; [exact Hindex | now apply Permutation_sym].
  - apply Forall_forall. intros item Hin.
    assert (H : In (fst item) (seq 0 (List.length sim_index))).
    { apply (Permutation_in _ Hnodes). now apply in_map. }
    apply in_seq in H. lia.
Qed.

Lemma common_words_rankings_complete_witness :
  exists column,
    common_words_rankings [PStr "a"; PStr "b"] [(1%nat, 2%R); (0%nat, 1%R)]
      [PStr "a"; PStr "b"] = Returned column /\
    Permutation column (seq 0 2).
Proof.
  apply (@common_words_rankings_complete [PStr "a"; PStr "b"]
           [(1%nat, 2%R); (0%nat, 1%R)] [PStr "a"; PStr "b"]).
  - repeat constructor; simpl; intuition discriminate.
  - apply perm_swap.
  - apply Permutation_refl.
Defined.

End AlignerFacts.

(** ** Printing the five most central texts *)

Section ReportFacts.
Import Py Corpus Report ReportExamples.
Open Scope string_scope.

Lemma best_text_found (sorted_scores : list (nat * R))
  (sim_index : list value) (df : dict string) (i node : nat) (s : R)
  (id : value) (t : string) :
  nth_error sorted_scores i = Some (node, s) ->
  nth_error sim_index node = Some id ->
  dict_get id df = Some t ->
  best_text sorted_scores sim_index df i = Returned t.
Proof.
  intros Hi Hnode Hget. unfold best_text. rewrite Hi, Hnode.
  assert (Hin : In id (filter (fun label => value_eqb label id) (keys df))).
  { apply filter_In. split; [|apply value_eqb_refl].
    apply dict_get_keys. eauto. }
  destruct (filter (fun label => value_eqb label id) (keys df))
    as [|label r] eqn:E; [contradiction|].
  assert (Hl : In label (filter (fun label => value_eqb label id) (keys df)))
    by (rewrite E; now left).
  apply filter_In in Hl. destruct Hl as (_ & Hl).
  apply value_eqb_eq in Hl. subst label. now rewrite Hget.
Qed.

Lemma best_text_raises (sorted_scores : list (nat * R))
  (sim_index : list value) (df : dict string) (i : nat) (e : exn) :
  best_text sorted_scores sim_index df i = Raised e -> e = IndexError.
Proof.
  unfold best_text.
  destruct (nth_error sorted_scores i) as [[node s]|]; [|congruence].
  destruct (nth_error sim_index node) as [id|]; [|congruence].
  destruct (filter (fun label => value_eqb label id) (keys df))
    as [|label r] eqn:E; [congruence|].
  assert (Hl : In label (filter (fun label => value_eqb label id) (keys df)))
    by (rewrite E; now left).
  apply filter_In in Hl. destruct Hl as (Hl & _).
  apply dict_get_keys in Hl. destruct Hl as (t & ->). discriminate.
Qed.

Lemma print_loop_short (sorted_scores : list (nat * R))
  (sim_index : list value) (df : dict string) (turns : list nat) :
  (exists i, In i turns /\ (List.length sorted_scores <= i)%nat) ->
  forall printed,
  exists printed',
    print_loop sorted_scores sim_index df turns printed
    = (printed', Some IndexError).
Proof.
  induction turns as [|i r IH]; simpl; intros (j & Hj & Hlen) printed.
  - contradiction.
  - destruct (best_text sorted_scores sim_index df i) as [t|e] eqn:E.
    + destruct Hj as [<-|Hj]; [|apply IH; eauto].
      exfalso. unfold best_text in E.
      apply nth_error_None in Hlen. rewrite Hlen in E. discriminate.
    + apply best_text_raises in E. subst e. eauto.
Qed.

Lemma print_loop_raises (sorted_scores : list (nat * R))
  (sim_index : list value) (df : dict string) (turns : list nat) :
  forall printed printed' e,
    print_loop sorted_scores sim_index df turns printed
    = (printed', Some e) -> e = IndexError.
Proof.
  induction turns as [|i r IH]; simpl; intros printed printed' e H.
  - discriminate.
  - destruct (best_text sorted_scores sim_index df i) as [t|e'] eqn:E.
    + now apply IH in H.
    + inversion H; subst. now apply best_text_raises in E.
Qed.

(** With fewer than five scored nodes the printing cell does not stop at
    the last one: it ends with an [IndexError].  And whatever the input, an
    [IndexError] is the only exception the cell can end with: it never
    raises a [KeyError]. *)
Theorem print_best_5_needs_five (sorted_scores : list (nat * R))
  (sim_index : list value) (df : dict string) :
  ((List.length sorted_scores < 5)%nat ->
   exists printed,
     print_best_5 sorted_scores sim_index df = (printed, Some IndexError)) /\
  (forall printed e,
     print_best_5 sorted_scores sim_index df = (printed, Some e) ->
     e = IndexError).
Proof.
  split.
  - intros H. unfold print_best_5. apply print_loop_short.
    exists 4%nat. split; [simpl; tauto | lia].
  - intros printed e H. unfold print_best_5 in H.
    now apply print_loop_raises in H.
Qed.

Lemma print_best_5_needs_five_witness :
  exists printed,
    print_best_5 [(0%nat, 1%R)] [PStr "a"] [(PStr "a", "ta")]
    = (printed, Some IndexError).
Proof.
  destruct (@print_best_5_needs_five [(0%nat, 1%R)] [PStr "a"]
              [(PStr "a", "ta")]) as (H & _).
  apply H. simpl. lia.
Defined.

Lemma print_loop_all (sorted_scores : list (nat * R))
  (sim_index : list value) (df : dict string) (g : nat -> string)
  (turns : list nat) :
  (forall i, In i turns ->
             best_text sorted_scores sim_index df i = Returned (g i)) ->
  forall printed,
    print_loop sorted_scores sim_index df turns printed
    = ((printed ++ flat_map (fun i => [g i; separator]) turns)%list, None).
Proof.
  induction turns as [|i r IH]; simpl; intros H printed.
  - now rewrite app_nil_r.
  - rewrite (H i (or_introl eq_refl)), IH by (intros j Hj; apply H; now right).
    now rewrite <- app_assoc.
Qed.

(** With five scored nodes whose numbers are labels of [sim] that are rows
    of the frame, the printing cell raises nothing and prints ten lines: the
    texts of the first five entries of the sorted scores, in that order,
    each followed by the separator. *)
Theorem print_best_5_prints (sorted_scores : list (nat * R))
  (sim_index : list value) (df : dict string) (text_of : nat -> string) :
  (forall i, (i < 5)%nat ->
     exists node s id,
       nth_error sorted_scores i = Some (node, s) /\
       nth_error sim_index node = Some id /\
       dict_get id df = Some (text_of i)) ->
  print_best_5 sorted_scores sim_index df =
  ([text_of 0%nat; separator; text_of 1%nat; separator; text_of 2%nat;
    separator; text_of 3%nat; separator; text_of 4%nat; separator], None).
Proof.
  intros H. unfold print_best_5.
  rewrite (@print_loop_all sorted_scores sim_index df text_of);
    [reflexivity|].
  intros i Hi. apply in_seq in Hi.
  destruct (H i) as (node & s & id & H1 & H2 & H3); [lia|].
  now apply best_text_found with (node := node) (s := s) (id := id).
Qed.

Lemma print_best_5_prints_witness :
  print_best_5 five_scores five_labels five_rows =
  (["te"; separator; "td"; separator; "tc"; separator; "tb"; separator;
    "ta"; separator], None).
Proof.
  apply (@print_best_5_prints five_scores five_labels five_rows
           (fun i => nth i ["te"; "td"; "tc"; "tb"; "ta"] "")).
  intros i Hi.
  destruct i as [|[|[|[|[|i]]]]]; [| | | | |lia].
  - exists 4%nat, 5%R, (PStr "e"). repeat split.
  - exists 3%nat, 4%R, (PStr "d"). repeat split.
  - exists 2%nat, 3%R, (PStr "c"). repeat split.
  - exists 1%nat, 2%R, (PStr "b"). repeat split.
  - exists 0%nat, 1%R, (PStr "a"). repeat split.
Defined.

End ReportFacts.

(** ** [fillna] and the graph of the word2vec pipeline *)

Section FillnaFacts.
Import Py Pd TextRank FrameExamples.
Open Scope R_scope.

Lemma In_set_edge (u v : nat) (w : float) (es : list (nat * nat * float))
  (e : nat * nat * float) :
  In e (set_edge u v w es) -> snd e = w \/ In e es.
Proof.
  induction es as [|e0 r IH]; simpl.
  - intros [<-|[]]. now left.
  - destruct (wjoins u v e0); simpl.
    + intros [<-|H]; [now left | right; now right].
    + intros [<-|H]; [right; now left|].
      destruct (IH H) as [?|?]; [now left | right; now right].
Qed.

Lemma fold_set_edge_weights (L : list (nat * nat * float)) :
  forall (es : list (nat * nat * float)) (e : nat * nat * float),
    In e (fold_left
            (fun es t => set_edge (fst (fst t)) (snd (fst t)) (snd t) es) L es) ->
    (exists t, In t L /\ snd t = snd e) \/ In e es.
Proof.
  induction L as [|a L IH]; simpl; intros es e H.
  - now right.
  - destruct (IH _ _ H) as [(t & Ht & E)|Hin].
    + left. exists t. tauto.
    + apply In_set_edge in Hin. destruct Hin as [E|Hin]; [|now right].
      left. exists a. split; [now left | congruence].
Qed.

(** Every weight of the graph is a nonzero entry of the array. *)
Lemma from_numpy_array_weights (A : list (list float)) (G : WGraph)
  (u v : nat) (w : float) :
  from_numpy_array A = Returned G -> edge_weight G u v = Some w ->
  nonzero w = true /\ exists i j, entry A i j = Some w.
Proof.
  unfold from_numpy_array. destruct (is_square A); [|discriminate].
  intros E Hw. inversion E; subst G. clear E.
  unfold edge_weight in Hw. simpl in Hw.
  destruct (find (wjoins u v) _) as [e|] eqn:Ef; [|discriminate].
  inversion Hw; subst w. apply find_some in Ef. destruct Ef as (Hin & _).
  apply fold_set_edge_weights in Hin. destruct Hin as [(t & Ht & E)|[]].
  apply In_enum_rows in Ht.
  destruct Ht as (i & j & row & x & Hi & Hj & Hz & ->). simpl in E. subst x.
  split; [assumption|]. exists i, j. unfold entry. simpl. now rewrite Hi.
Qed.

(** In the word2vec pipeline, where [fillna(0)] comes before the graph is
    built, no edge of the graph handed to PageRank carries a NaN weight, and
    none carries the weight 0. *)
Theorem word2vec_graph_has_no_nan_weight (sim : DataFrame) (G : WGraph)
  (u v : nat) (w : float) :
  nx_graph_word2vec sim = Returned G -> edge_weight G u v = Some w ->
  w <> NaN /\ w <> Fin 0.
Proof.
  intros HG Hw. unfold nx_graph_word2vec, nx_graph in HG.
  destruct (from_numpy_array_weights _ u v HG Hw) as (Hz & i & j & He).
  split.
  - rewrite entry_fillna in He.
    destruct (entry (values sim) i j) as [c|]; simpl in He; [|discriminate].
    inversion He. apply fillna_cell_not_nan.
  - intros ->. unfold nonzero in Hz.
    destruct (Req_dec_T 0 0) as [_|H]; [discriminate | now apply H].
Qed.

Lemma word2vec_graph_has_no_nan_weight_witness :
  Fin 1 <> NaN /\ Fin 1 <> Fin 0.
Proof.
  apply (@word2vec_graph_has_no_nan_weight half_frame
           (graph_of (values (fillna 0 half_frame))) 0%nat 0%nat (Fin 1)).
  - reflexivity.
  - apply from_numpy_array_self_loop with (A := values (fillna 0 half_frame)).
    + reflexivity.
    + reflexivity.
    + unfold nonzero. destruct (Req_dec_T 1 0) as [E|E]; [|reflexivity].
      exfalso. apply R1_neq_R0. exact E.
Defined.

End FillnaFacts.

Section SymmetricArray.
Import Py Pd TextRank FrameExamples.
Open Scope R_scope.

Lemma fold_set_edge_no_match (p q : nat) (L : list (nat * nat * float)) :
  forall es : list (nat * nat * float),
    (forall t, In t L -> wjoins p q t = false) ->
    find (wjoins p q)
      (fold_left (fun es t => set_edge (fst (fst t)) (snd (fst t)) (snd t) es)
         L es)
    = find (wjoins p q) es.
Proof.
  induction L as [|a L IH]; simpl; intros es H; [reflexivity|].
  rewrite IH by (intros t Ht; apply H; now right).
  apply find_set_edge_other.
  rewrite <- (H a (or_introl eq_refl)). now destruct a as [[x y] z].
Qed.

(** For a symmetric array the graph has exactly the nonzero entries as
    edges: two nodes are joined, with the entry as weight, when their entry
    is not zero, and are not joined when it is. *)
Theorem symmetric_array_edges (A : list (list float)) (G : WGraph)
  (u v : nat) (x : float) :
  from_numpy_array A = Returned G ->
  (forall i j, entry A i j = entry A j i) ->
  entry A u v = Some x ->
  edge_weight G u v = if nonzero x then Some x else None.
Proof.
  unfold from_numpy_array. destruct (is_square A); [|discriminate].
  intros E Hsym Hx. inversion E; subst G. clear E.
  unfold edge_weight. simpl.
  assert (Hmatch : forall t, In t (enum_rows 0 A) -> wjoins u v t = true ->
            snd t = x /\ nonzero x = true).
  { intros t Ht Hj. apply In_enum_rows in Ht.
    destruct Ht as (i & j & row & y & Hi & Hjy & Hz & ->).
    assert (Hy : entry A i j = Some y) by (unfold entry; now rewrite Hi).
    unfold wjoins in Hj. simpl in Hj. simpl.
    apply orb_true_iff in Hj. rewrite !andb_true_iff, !Nat.eqb_eq in Hj.
    destruct Hj as [[-> ->]|[-> ->]].
    - rewrite Hx in Hy. inversion Hy; subst y. tauto.
    - rewrite Hsym, Hx in Hy. inversion Hy; subst y. tauto. }
  destruct (nonzero x) eqn:Hz.
  - destruct (@fold_set_edge_weight u v x (enum_rows 0 A) []) as (e & -> & <-).
    + intros t Ht Hj. now destruct (Hmatch t Ht Hj).
    + left. exists (u, v, x). split.
      * apply In_enum_rows. unfold entry in Hx.
        destruct (nth_error A u) as [row|] eqn:Hrow; [|discriminate].
        exists u, v, row, x. auto.
      * unfold wjoins. simpl. now rewrite !Nat.eqb_refl.
    + reflexivity.
  - rewrite fold_set_edge_no_match; [reflexivity|].
    intros t Ht. destruct (wjoins u v t) eqn:Hj; [|reflexivity].
    destruct (Hmatch t Ht Hj) as (_ & H). discriminate.
Qed.

Lemma symmetric_array_edges_witness :
  edge_weight (graph_of (values half_frame)) 0 1 =
  if nonzero (Fin (1 / 2)) then Some (Fin (1 / 2)) else None.
Proof.
  apply (@symmetric_array_edges (values half_frame)
           (graph_of (values half_frame)) 0%nat 1%nat (Fin (1 / 2))).
  - reflexivity.
  - intros i j. destruct i as [|[|[|i]]], j as [|[|[|j]]]; reflexivity.
  - reflexivity.
Defined.

End SymmetricArray.

(** ** The PageRank scores: sum and teleportation floor *)

Section PageRankFacts.
Import Py Pd TextRank PageRank.
Open Scope R_scope.







End PageRankFacts.
